(** * Binary multiplication on bit lists (ad2/assignment_1/binary_mult.py)

    A shallow embedding of the divide-and-conquer multiplier and of its
    helper routines, followed by the properties established about them.

    Bit sequences are Python lists of ints, most significant bit first;
    they are modelled as [list Z].  Lengths and loop counters are [nat]:
    every subtraction of lengths in the source sits under a comparison
    that makes it non-negative, and [len(A)/2] is Python 2 integer
    division.

    The source mutates its list arguments in place.  Module [Pure] threads
    the contents of each mutated list through the computation (a routine
    that mutates its arguments returns their final contents); it is exact
    whenever the two arguments of [pad_same_length] and [binary_add] are
    distinct list objects, which is the case at every call site of the
    source.  Module [Store] models the lists as objects in a store, with
    references, allocation and aliasing. *)

From stdpp Require Import base numbers list.
From Stdlib Require Import ZArith Lia ZifyNat.

(** ** Outcomes of a call *)

(** A call returns a value, raises Python's [IndexError], or (in the
    fuel-indexed recursion only) exhausts its recursion budget. *)
Inductive outcome (T : Type) : Type :=
  | Ok (v : T)
  | IndexError
  | OutOfFuel.

Arguments Ok {T} v.
Arguments IndexError {T}.
Arguments OutOfFuel {T}.

#[global] Instance outcome_bind : MBind outcome := fun T U k m =>
  match m with
  | Ok v => k v
  | IndexError => IndexError
  | OutOfFuel => OutOfFuel
  end.

Module Pure.

(** [prepend_n_times(X, n)]: [n] times [X.insert(0,0)]. *)
Fixpoint prepend_n_times (X : list Z) (n : nat) : list Z :=
  match n with
  | O => X
  | S n' => prepend_n_times (0%Z :: X) n'
  end.

(** [pop_n_times(X, n)]: [n] times [X.pop(0)], which raises on an empty
    list. *)
Fixpoint pop_n_times (X : list Z) (n : nat) {struct n} : outcome (list Z) :=
  match n with
  | O => Ok X
  | S n' =>
      match X with
      | [] => IndexError
      | _ :: X' => pop_n_times X' n'
      end
  end.

(** [append_n_times(X, n)]: builds [Y] by [n] insertions of a zero into an
    empty list, then [X += Y]. *)
Definition append_n_times (X : list Z) (n : nat) : list Z :=
  let Y := prepend_n_times [] n in
  X ++ Y.

(** [length_modifier(X, length)]; the result is the final content of [X]. *)
Definition length_modifier (X : list Z) (len : nat) : outcome (list Z) :=
  let X_length := length X in
  if X_length <? len * 2
  then Ok (prepend_n_times X (len * 2 - X_length))
  else pop_n_times X (X_length - len * 2).

(** [pad_same_length(X, Y)]; the result is the final contents of [X] and
    of [Y]. *)
Definition pad_same_length (X Y : list Z) : list Z * list Z :=
  let Length_X := length X in
  let Length_Y := length Y in
  let '(X, Y) :=
    if Length_Y <? Length_X
    then (X, prepend_n_times Y (Length_X - Length_Y))
    else (prepend_n_times X (Length_Y - Length_X), Y) in
  if negb (length X mod 2 =? 0) && negb (length X =? 1)
  then (0%Z :: X, 0%Z :: Y)
  else (X, Y).

(** The loop of [binary_add]: [Xs] is what remains of the iteration over
    [X]; [index], [carry] and [result] are the loop's variables.  Reading
    [Y[index]] and assigning [result[index]] raise when out of range. *)
Fixpoint add_loop (Xs Y : list Z) (index : nat) (carry : Z) (result : list Z)
  : outcome (Z * list Z) :=
  match Xs with
  | [] => Ok (carry, result)
  | X_element :: Xs' =>
      match Y !! index with
      | None => IndexError
      | Some y =>
          if index <? length result then
            let result := <[index := ((y + X_element + carry) mod 2)%Z]> result in
            let carry := if (1 <? y + X_element + carry)%Z then 1%Z else 0%Z in
            add_loop Xs' Y (S index) carry result
          else IndexError
      end
  end.

(** [binary_add(X, Y)]; the result is the final contents of [X] and of [Y]
    and the returned list. *)
Definition binary_add (X Y : list Z) : outcome (list Z * list Z * list Z) :=
  let '(X, Y) := pad_same_length X Y in
  let X := reverse X in
  let Y := reverse Y in
  let result := replicate (length X) 0%Z in
  '(carry, result) ← add_loop X Y 0 0%Z result;
  let result := if (carry =? 1)%Z then result ++ [carry] else result in
  let result := reverse result in
  Ok (X, Y, result).

(** The four padding calls of [binary_mult] on the halves of [A] and [B];
    the result is the final contents of [A1], [A2], [B1], [B2]. *)
Definition split_pad (A B : list Z) : list Z * list Z * list Z * list Z :=
  let '(A1, A2) := (take (length A / 2) A, drop (length A / 2) A) in
  let '(B1, B2) := (take (length B / 2) B, drop (length B / 2) B) in
  let '(A1, B1) := pad_same_length A1 B1 in
  let '(A1, B2) := pad_same_length A1 B2 in
  let '(A2, B1) := pad_same_length A2 B1 in
  let '(A2, B2) := pad_same_length A2 B2 in
  (A1, A2, B1, B2).

(** [binary_mult(A, B)], with the depth of the recursion bounded by
    [fuel]. *)
Fixpoint binary_mult_fuel (fuel : nat) (A B : list Z) : outcome (list Z) :=
  let len := length A in
  if 1 <? len then
    match fuel with
    | O => OutOfFuel
    | S fuel' =>
        let '(A1, A2, B1, B2) := split_pad A B in
        A1B1 ← binary_mult_fuel fuel' A1 B1;
        A1B2 ← binary_mult_fuel fuel' A1 B2;
        A2B1 ← binary_mult_fuel fuel' A2 B1;
        A2B2 ← binary_mult_fuel fuel' A2 B2;
        '(_, _, cross_sum) ← binary_add A1B2 A2B1;
        let Left := append_n_times A1B1 len in
        let Middle := append_n_times cross_sum (len / 2) in
        let Right := A2B2 in
        '(_, _, mid_sum) ← binary_add Left Middle;
        '(_, _, final_sum) ← binary_add mid_sum Right;
        length_modifier final_sum len
    end
  else
    match A, B with
    | a :: _, b :: _ => Ok [(a * b)%Z]
    | _, _ => IndexError
    end.

(** The recursion of [binary_mult] on lists of lengths [n] and [m] is at
    most [max n m] deep (lemma [binary_mult_fuel_enough]). *)
Definition binary_mult (A B : list Z) : outcome (list Z) :=
  binary_mult_fuel (max (length A) (length B)) A B.

(** Modelled from the spec: the test helper [bits_to_int], the integer
    denoted by a bit sequence read most significant bit first. *)
Definition bits_to_int (X : list Z) : Z :=
  fold_left (fun acc b => (2 * acc + b)%Z) X 0%Z.

(** Modelled from the spec: the test helper [int_to_bits], the [n]-bit
    sequence of [a], most significant bit first. *)
Fixpoint int_to_bits (a : Z) (n : nat) : list Z :=
  match n with
  | O => []
  | S n' => int_to_bits (a / 2) n' ++ [(a mod 2)%Z]
  end.


End Pure.

(** ** The store model *)

Module Store.

(** A store holds the list objects of the program; a reference is the
    index of an object.  Objects are never deallocated, and a new object
    takes the next free index. *)
Abbreviation store := (list (list Z)).
Abbreviation ref := nat.

(** The list held by the object [x]. *)
Definition contents (σ : store) (x : ref) : list Z := default [] (σ !! x).

(** Assignment of a new content to the object [x]. *)
Definition update (x : ref) (l : list Z) (σ : store) : store := <[x := l]> σ.

(** Creation of a new object holding [l]. *)
Definition alloc (l : list Z) (σ : store) : store * ref :=
  (σ ++ [l], length σ).

(** [X.insert(0,0)]. *)
Definition insert0 (x : ref) (σ : store) : store :=
  update x (0%Z :: contents σ x) σ.

(** [X.reverse()]. *)
Definition reverse_in_place (x : ref) (σ : store) : store :=
  update x (reverse (contents σ x)) σ.

(** [prepend_n_times(X, n)]. *)
Fixpoint prepend_n_times (x : ref) (n : nat) (σ : store) : store :=
  match n with
  | O => σ
  | S n' => prepend_n_times x n' (insert0 x σ)
  end.

(** [pop_n_times(X, n)]; [X.pop(0)] raises on an empty list. *)
Fixpoint pop_n_times (x : ref) (n : nat) (σ : store) : outcome store :=
  match n with
  | O => Ok σ
  | S n' =>
      match contents σ x with
      | [] => IndexError
      | _ :: X' => pop_n_times x n' (update x X' σ)
      end
  end.

(** [append_n_times(X, n)]: the local list [Y] is a new object; the
    function returns its argument [X]. *)
Definition append_n_times (x : ref) (n : nat) (σ : store) : store * ref :=
  let '(σ, y) := alloc [] σ in
  let σ := prepend_n_times y n σ in
  let σ := update x (contents σ x ++ contents σ y) σ in
  (σ, x).

(** [length_modifier(X, length)]. *)
Definition length_modifier (x : ref) (len : nat) (σ : store) : outcome store :=
  let X_length := length (contents σ x) in
  if X_length <? len * 2
  then Ok (prepend_n_times x (len * 2 - X_length) σ)
  else pop_n_times x (X_length - len * 2) σ.

(** [pad_same_length(X, Y)]. *)
Definition pad_same_length (x y : ref) (σ : store) : store :=
  let Length_X := length (contents σ x) in
  let Length_Y := length (contents σ y) in
  let σ :=
    if Length_Y <? Length_X
    then prepend_n_times y (Length_X - Length_Y) σ
    else prepend_n_times x (Length_Y - Length_X) σ in
  if negb (length (contents σ x) mod 2 =? 0)
     && negb (length (contents σ x) =? 1)
  then insert0 y (insert0 x σ)
  else σ.

(** The loop of [binary_add]; [Xs] is what remains of the iteration over
    the list [X], [y] and [result] are the objects read and written. *)
Fixpoint add_loop (Xs : list Z) (y result : ref) (index : nat) (carry : Z)
    (σ : store) : outcome (Z * store) :=
  match Xs with
  | [] => Ok (carry, σ)
  | X_element :: Xs' =>
      match contents σ y !! index with
      | None => IndexError
      | Some yv =>
          if index <? length (contents σ result) then
            let σ :=
              update result
                (<[index := ((yv + X_element + carry) mod 2)%Z]>
                   (contents σ result)) σ in
            let carry := if (1 <? yv + X_element + carry)%Z then 1%Z else 0%Z in
            add_loop Xs' y result (S index) carry σ
          else IndexError
      end
  end.

(** [binary_add(X, Y)]: returns the reference of the new list [result]. *)
Definition binary_add (x y : ref) (σ : store) : outcome (store * ref) :=
  let σ := pad_same_length x y σ in
  let σ := reverse_in_place x σ in
  let σ := reverse_in_place y σ in
  let '(σ, result) := alloc (replicate (length (contents σ x)) 0%Z) σ in
  '(carry, σ) ← add_loop (contents σ x) y result 0 0%Z σ;
  let σ :=
    if (carry =? 1)%Z
    then update result (contents σ result ++ [carry]) σ
    else σ in
  let σ := reverse_in_place result σ in
  Ok (σ, result).

(** The slices of [A] and [B], which are new objects, and the four
    padding calls of [binary_mult] on them. *)
Definition split_pad (a b : ref) (σ : store)
  : store * ref * ref * ref * ref :=
  let '(σ, A1) :=
    alloc (take (length (contents σ a) / 2) (contents σ a)) σ in
  let '(σ, A2) :=
    alloc (drop (length (contents σ a) / 2) (contents σ a)) σ in
  let '(σ, B1) :=
    alloc (take (length (contents σ b) / 2) (contents σ b)) σ in
  let '(σ, B2) :=
    alloc (drop (length (contents σ b) / 2) (contents σ b)) σ in
  let σ := pad_same_length A1 B1 σ in
  let σ := pad_same_length A1 B2 σ in
  let σ := pad_same_length A2 B1 σ in
  let σ := pad_same_length A2 B2 σ in
  (σ, A1, A2, B1, B2).

(** [binary_mult(A, B)] on references, with the depth of the recursion
    bounded by [fuel]. *)
Fixpoint binary_mult_fuel (fuel : nat) (a b : ref) (σ : store)
  : outcome (store * ref) :=
  let len := length (contents σ a) in
  if 1 <? len then
    match fuel with
    | O => OutOfFuel
    | S fuel' =>
        let '(σ, A1, A2, B1, B2) := split_pad a b σ in
        '(σ, A1B1) ← binary_mult_fuel fuel' A1 B1 σ;
        '(σ, A1B2) ← binary_mult_fuel fuel' A1 B2 σ;
        '(σ, A2B1) ← binary_mult_fuel fuel' A2 B1 σ;
        '(σ, A2B2) ← binary_mult_fuel fuel' A2 B2 σ;
        '(σ, cross_sum) ← binary_add A1B2 A2B1 σ;
        let '(σ, Left) := append_n_times A1B1 len σ in
        let '(σ, Middle) := append_n_times cross_sum (len / 2) σ in
        let Right := A2B2 in
        '(σ, mid_sum) ← binary_add Left Middle σ;
        '(σ, final_sum) ← binary_add mid_sum Right σ;
        σ ← length_modifier final_sum len σ;
        Ok (σ, final_sum)
    end
  else
    match contents σ a, contents σ b with
    | a0 :: _, b0 :: _ => Ok (alloc [(a0 * b0)%Z] σ)
    | _, _ => IndexError
    end.

Definition binary_mult (a b : ref) (σ : store) : outcome (store * ref) :=
  binary_mult_fuel
    (max (length (contents σ a)) (length (contents σ b))) a b σ.

End Store.

Import Pure.

(** ** Auxiliary definitions used in the statements *)

(** A bit is the integer 0 or 1. *)
Definition is_bit (b : Z) : Prop := b = 0%Z \/ b = 1%Z.

(** A bit sequence is a list all of whose elements are bits. *)
Definition bit_seq (X : list Z) : Prop := Forall is_bit X.

(** The length on which [pad_same_length] settles for a common length [k]
    reached after the shorter list was extended: an odd [k] other than 1
    is bumped to [k + 1]. *)
Definition evenup (k : nat) : nat :=
  if negb (k mod 2 =? 0) && negb (k =? 1) then S k else k.

(** The common length after [pad_same_length] of lists of lengths [x], [y]. *)
Definition pad_len (x y : nat) : nat := evenup (max x y).

(** [X] with zero bits prepended up to length [L]. *)
Definition zero_extend (L : nat) (X : list Z) : list Z :=
  replicate (L - length X) 0%Z ++ X.

(** A length is admissible for a recursive call when it is even or 1. *)
Definition even_or_one (k : nat) : Prop := k mod 2 = 0 \/ k = 1.

(** The integer denoted by a bit sequence read least significant bit
    first, the order in which [binary_add] walks its reversed operands. *)
Fixpoint lsb_value (X : list Z) : Z :=
  match X with
  | [] => 0%Z
  | b :: X' => (b + 2 * lsb_value X')%Z
  end.

(** The carry chain of [binary_add]'s loop as a recursion over both
    reversed operands: the final carry and the sum bits, least significant
    first (lemma [add_loop_add_lsb] relates it to [add_loop]). *)
Fixpoint add_lsb (Xs Ys : list Z) (carry : Z) : Z * list Z :=
  match Xs, Ys with
  | x :: Xs', y :: Ys' =>
      let '(c, R) :=
        add_lsb Xs' Ys' (if (1 <? y + x + carry)%Z then 1%Z else 0%Z) in
      (c, ((y + x + carry) mod 2)%Z :: R)
  | _, _ => (carry, [])
  end.

(** The list returned by [binary_add(X, Y)]: the sum bits of the carry
    chain over the padded, reversed operands, with the final carry as an
    extra leading bit when it is 1. *)
Definition add_result (X Y : list Z) : list Z :=
  let L := pad_len (length X) (length Y) in
  let '(c, R) :=
    add_lsb (reverse (zero_extend L X)) (reverse (zero_extend L Y)) 0%Z in
  reverse (if (c =? 1)%Z then R ++ [c] else R).

(** The lengths of [A1], [B1] and of [A2], [B2] (the last two agree) after
    the four padding calls of [binary_mult] on lists of lengths [a], [b]. *)
Definition len_A1 (a b : nat) : nat :=
  pad_len (pad_len (a / 2) (b / 2)) (b - b / 2).

Definition len_B1 (a b : nat) : nat :=
  pad_len (a - a / 2) (pad_len (a / 2) (b / 2)).

Definition len_2 (a b : nat) : nat :=
  pad_len (len_B1 a b) (len_A1 a b).

(** The combination step of [binary_mult] on a list of length [len], from
    the four half products: what follows the recursive calls. *)
Definition combine (len : nat) (A1B1 A1B2 A2B1 A2B2 : list Z)
  : outcome (list Z) :=
  '(_, _, cross_sum) ← binary_add A1B2 A2B1;
  let Left := append_n_times A1B1 len in
  let Middle := append_n_times cross_sum (len / 2) in
  let Right := A2B2 in
  '(_, _, mid_sum) ← binary_add Left Middle;
  '(_, _, final_sum) ← binary_add mid_sum Right;
  length_modifier final_sum len.

(** The list on which the three additions of the combination step end,
    before it is fitted to [2 * len] bits. *)
Definition combine_sum (len : nat) (A1B1 A1B2 A2B1 A2B2 : list Z) : list Z :=
  add_result
    (add_result (A1B1 ++ replicate len 0%Z)
                (add_result A1B2 A2B1 ++ replicate (len / 2) 0%Z))
    A2B2.



(** [σ'] extends [σ]: the objects of [σ] are all in [σ'], unchanged, and
    [σ'] may hold further objects. *)
Definition extends (σ σ' : list (list Z)) : Prop := exists τ, σ' = σ ++ τ.

(** A run on the store refines a run on contents: it fails the same way,
    or returns a new object holding the same list in a store that extends
    the initial one. *)
Definition refines (σ : list (list Z)) (p : outcome (list Z))
    (s : outcome (list (list Z) * nat)) : Prop :=
  match p with
  | Ok l =>
      exists σ' r, s = Ok (σ', r) /\ extends σ σ' /\
                   length σ <= r < length σ' /\ Store.contents σ' r = l
  | IndexError => s = IndexError
  | OutOfFuel => s = OutOfFuel
  end.

(** The shape of arguments on which the base case of [binary_mult] indexes
    an empty list: [A] is empty, or [A] has one element and [B] is
    empty. *)
Definition fails_fast (A B : list Z) : bool :=
  (length A =? 0) || ((length A =? 1) && (length B =? 0)).

(** The number that the combination step of [binary_mult] forms from the
    values of the halves [A[:n/2]], [A[n/2:]], [B[:n/2]], [B[n/2:]] of two
    lists of length [n]: the high product shifted by [n] bits, the cross
    sum shifted by [n/2] bits, and the low product. *)
Definition halves_value (A B : list Z) : Z :=
  let n := length A in
  let a1 := bits_to_int (take (n / 2) A) in
  let a2 := bits_to_int (drop (n / 2) A) in
  let b1 := bits_to_int (take (length B / 2) B) in
  let b2 := bits_to_int (drop (length B / 2) B) in
  (a1 * b1 * 2 ^ Z.of_nat n
   + (a1 * b2 + a2 * b1) * 2 ^ Z.of_nat (n / 2)
   + a2 * b2)%Z.

Ltac Zify.zify_post_hook ::= Z.to_euclidean_division_equations.

(** ** Elementary facts about the helper routines *)

Lemma prepend_n_times_replicate X n :
  prepend_n_times X n = replicate n 0%Z ++ X.
Proof.
  revert X. induction n as [|n IH]; intros X; simpl; [done|].
  rewrite IH, (cons_middle 0%Z), app_assoc, <- replicate_S_end. done.
Qed.

Lemma append_n_times_replicate X n :
  append_n_times X n = X ++ replicate n 0%Z.
Proof.
  unfold append_n_times. rewrite prepend_n_times_replicate, app_nil_r. done.
Qed.

Lemma pop_n_times_drop X n :
  n <= length X -> pop_n_times X n = Ok (drop n X).
Proof.
  revert X. induction n as [|n IH]; intros X Hn; simpl; [by rewrite drop_0|].
  destruct X as [|x X]; simpl in *; [lia|]. apply IH. lia.
Qed.

Lemma pop_n_times_short X n :
  length X < n -> pop_n_times X n = IndexError.
Proof.
  revert X. induction n as [|n IH]; intros X Hn; simpl; [lia|].
  destruct X as [|x X]; simpl in *; [done|]. apply IH. lia.
Qed.

Lemma length_modifier_spec X len :
  length_modifier X len =
    Ok (if length X <? len * 2
        then zero_extend (len * 2) X
        else drop (length X - len * 2) X).
Proof.
  unfold length_modifier, zero_extend.
  destruct (length X <? len * 2) eqn:E.
  - by rewrite prepend_n_times_replicate.
  - apply Nat.ltb_ge in E. apply pop_n_times_drop. lia.
Qed.

Lemma length_modifier_length X len r :
  length_modifier X len = Ok r -> length r = 2 * len.
Proof.
  rewrite length_modifier_spec. intros [= <-].
  destruct (length X <? len * 2) eqn:E.
  - apply Nat.ltb_lt in E. unfold zero_extend.
    rewrite length_app, length_replicate. lia.
  - apply Nat.ltb_ge in E. rewrite length_drop. lia.
Qed.

Lemma length_zero_extend L X :
  length X <= L -> length (zero_extend L X) = L.
Proof.
  intros H. unfold zero_extend. rewrite length_app, length_replicate. lia.
Qed.

Lemma evenup_cases k :
  (evenup k = k /\ even_or_one k) \/
  (evenup k = S k /\ k mod 2 = 1 /\ 3 <= k).
Proof.
  unfold evenup, even_or_one.
  destruct (k mod 2 =? 0) eqn:E1; cbn [negb andb].
  - apply Nat.eqb_eq in E1. auto.
  - apply Nat.eqb_neq in E1.
    destruct (k =? 1) eqn:E2; cbn [negb andb].
    + apply Nat.eqb_eq in E2. auto.
    + apply Nat.eqb_neq in E2. right. lia.
Qed.

Lemma evenup_even_or_one k : even_or_one (evenup k).
Proof.
  destruct (evenup_cases k) as [[-> H]|(-> & H1 & H2)]; [done|].
  left. lia.
Qed.

Lemma evenup_fixed k : even_or_one k -> evenup k = k.
Proof.
  intros H. destruct (evenup_cases k) as [[-> _]|(_ & H1 & H2)]; [done|].
  destruct H; lia.
Qed.

Lemma evenup_ge k : k <= evenup k.
Proof. destruct (evenup_cases k) as [[-> _]|(-> & _)]; lia. Qed.

Lemma pad_same_length_spec X Y :
  pad_same_length X Y =
    (zero_extend (pad_len (length X) (length Y)) X,
     zero_extend (pad_len (length X) (length Y)) Y).
Proof.
  unfold pad_same_length, pad_len, zero_extend.
  rewrite !prepend_n_times_replicate.
  destruct (length Y <? length X) eqn:E;
    [apply Nat.ltb_lt in E | apply Nat.ltb_ge in E].
  - replace (length X `max` length Y) with (length X) by lia.
    replace (length (replicate (length X - length Y) 0%Z ++ Y)) with (length X).
    2:{ rewrite length_app, length_replicate. lia. }
    unfold evenup.
    destruct (negb (length X mod 2 =? 0) && negb (length X =? 1)).
    + replace (S (length X) - length X) with 1 by lia.
      replace (S (length X) - length Y) with (S (length X - length Y)) by lia.
      done.
    + by rewrite Nat.sub_diag.
  - replace (length X `max` length Y) with (length Y) by lia.
    rewrite length_app, length_replicate.
    replace (length Y - length X + length X) with (length Y) by lia.
    unfold evenup.
    destruct (negb (length Y mod 2 =? 0) && negb (length Y =? 1)).
    + replace (S (length Y) - length Y) with 1 by lia.
      replace (S (length Y) - length X) with (S (length Y - length X)) by lia.
      done.
    + by rewrite Nat.sub_diag.
Qed.


(** ** Values of bit sequences *)

Lemma bits_to_int_snoc X b :
  bits_to_int (X ++ [b]) = (2 * bits_to_int X + b)%Z.
Proof. unfold bits_to_int. by rewrite fold_left_app. Qed.

Lemma bits_to_int_lsb X : bits_to_int X = lsb_value (reverse X).
Proof.
  induction X as [|b X IH] using rev_ind; [done|].
  rewrite bits_to_int_snoc, reverse_snoc, IH. simpl. lia.
Qed.

Lemma lsb_value_app X Y :
  lsb_value (X ++ Y) = (lsb_value X + 2 ^ Z.of_nat (length X) * lsb_value Y)%Z.
Proof.
  induction X as [|b X IH]; simpl length; simpl lsb_value.
  - simpl. lia.
  - rewrite Nat2Z.inj_succ, Z.pow_succ_r by lia. rewrite IH. lia.
Qed.

Lemma lsb_value_replicate n : lsb_value (replicate n 0%Z) = 0%Z.
Proof. induction n as [|n IH]; simpl; [done|]. rewrite IH. lia. Qed.

Lemma bits_to_int_app X Y :
  bits_to_int (X ++ Y) =
    (bits_to_int X * 2 ^ Z.of_nat (length Y) + bits_to_int Y)%Z.
Proof.
  rewrite !bits_to_int_lsb, reverse_app, lsb_value_app, length_reverse. lia.
Qed.

Lemma bits_to_int_replicate n : bits_to_int (replicate n 0%Z) = 0%Z.
Proof. by rewrite bits_to_int_lsb, reverse_replicate, lsb_value_replicate. Qed.

Lemma bits_to_int_zero_extend L X :
  bits_to_int (zero_extend L X) = bits_to_int X.
Proof.
  unfold zero_extend. rewrite bits_to_int_app, bits_to_int_replicate. lia.
Qed.

Lemma lsb_value_bound X :
  bit_seq X -> (0 <= lsb_value X < 2 ^ Z.of_nat (length X))%Z.
Proof.
  induction 1 as [|b X Hb _ IH]; simpl length; simpl lsb_value; [simpl; lia|].
  rewrite Nat2Z.inj_succ, Z.pow_succ_r by lia. destruct Hb; lia.
Qed.

Lemma bit_seq_reverse X : bit_seq (reverse X) <-> bit_seq X.
Proof. unfold bit_seq. apply Forall_reverse. Qed.

Lemma bits_to_int_bound X :
  bit_seq X -> (0 <= bits_to_int X < 2 ^ Z.of_nat (length X))%Z.
Proof.
  intros H. rewrite bits_to_int_lsb, <- (length_reverse X).
  by apply lsb_value_bound, bit_seq_reverse.
Qed.

Lemma bit_seq_replicate n : bit_seq (replicate n 0%Z).
Proof. apply Forall_replicate. by left. Qed.

Lemma bit_seq_zero_extend L X : bit_seq X -> bit_seq (zero_extend L X).
Proof. intros H. apply Forall_app. split; [apply bit_seq_replicate|done]. Qed.

(** ** The addition loop *)

Lemma add_lsb_length Xs : forall Ys carry,
  length Ys = length Xs -> length (add_lsb Xs Ys carry).2 = length Xs.
Proof.
  induction Xs as [|x Xs IH]; intros [|y Ys] carry Hl; simpl in *; try done.
  specialize (IH Ys (if (1 <? y + x + carry)%Z then 1%Z else 0%Z)).
  destruct (add_lsb Xs Ys _) as [c R]. simpl in *. f_equal. apply IH. lia.
Qed.

Lemma add_loop_add_lsb Xs : forall Ys Yd Rd carry,
  length Ys = length Xs -> length Rd = length Yd ->
  add_loop Xs (Yd ++ Ys) (length Yd) carry
      (Rd ++ replicate (length Xs) 0%Z) =
    Ok ((add_lsb Xs Ys carry).1, Rd ++ (add_lsb Xs Ys carry).2).
Proof.
  induction Xs as [|x Xs IH]; intros Ys Yd Rd carry HY HR.
  - destruct Ys; [|done]. simpl. done.
  - destruct Ys as [|y Ys]; [done|]. simpl in HY.
    cbn [add_loop add_lsb].
    rewrite lookup_app_r, Nat.sub_diag by lia. cbn [lookup list_lookup].
    rewrite length_app, length_replicate. cbn [length].
    destruct (length Yd <? length Rd + S (length Xs)) eqn:E;
      [|apply Nat.ltb_ge in E; lia].
    rewrite <- HR, <- (Nat.add_0_r (length Rd)), insert_app_r. cbn [replicate].
    cbn [insert list_insert]. rewrite Nat.add_0_r.
    specialize (IH Ys (Yd ++ [y])
      (Rd ++ [((y + x + carry) mod 2)%Z])
      (if (1 <? y + x + carry)%Z then 1%Z else 0%Z)).
    rewrite <- !app_assoc in IH. cbn [app] in IH.
    rewrite !length_app in IH. cbn [length] in IH.
    rewrite HR, Nat.add_1_r in *. rewrite IH by lia.
    destruct (add_lsb Xs Ys _) as [c R]. done.
Qed.

Lemma add_lsb_value Xs : forall Ys carry,
  length Ys = length Xs -> bit_seq Xs -> bit_seq Ys -> is_bit carry ->
  is_bit (add_lsb Xs Ys carry).1 /\ bit_seq (add_lsb Xs Ys carry).2 /\
  (lsb_value (add_lsb Xs Ys carry).2
     + 2 ^ Z.of_nat (length Xs) * (add_lsb Xs Ys carry).1
   = lsb_value Xs + lsb_value Ys + carry)%Z.
Proof.
  induction Xs as [|x Xs IH]; intros [|y Ys] carry Hl HX HY Hc;
    simpl in Hl; try done.
  - simpl. split; [done|]. split; [constructor|]. lia.
  - apply Forall_cons in HX as [Hx HX]. apply Forall_cons in HY as [Hy HY].
    cbn [add_lsb].
    specialize (IH Ys (if (1 <? y + x + carry)%Z then 1%Z else 0%Z)).
    destruct (add_lsb Xs Ys _) as [c R]. cbn [fst snd] in *.
    destruct IH as (Hc' & HR & Hv); [lia|done|done| |].
    { destruct (1 <? y + x + carry)%Z; [by right|by left]. }
    split; [done|]. split.
    + constructor; [|done].
      destruct Hx as [-> | ->], Hy as [-> | ->], Hc as [-> | ->];
        by (left + right).
    + cbn [length lsb_value]. rewrite Nat2Z.inj_succ, Z.pow_succ_r by lia.
      destruct Hx as [-> | ->], Hy as [-> | ->], Hc as [-> | ->];
        simpl in Hv |- *; lia.
Qed.

(** ** [binary_add] *)

Lemma pad_len_ge_l x y : x <= pad_len x y.
Proof. unfold pad_len. pose proof (evenup_ge (x `max` y)). lia. Qed.

Lemma pad_len_ge_r x y : y <= pad_len x y.
Proof. unfold pad_len. pose proof (evenup_ge (x `max` y)). lia. Qed.

Lemma binary_add_spec X Y :
  binary_add X Y =
    Ok (reverse (zero_extend (pad_len (length X) (length Y)) X),
        reverse (zero_extend (pad_len (length X) (length Y)) Y),
        add_result X Y).
Proof.
  unfold binary_add, add_result. rewrite pad_same_length_spec.
  set (L := pad_len (length X) (length Y)).
  assert (HX : length (reverse (zero_extend L X)) = L).
  { rewrite length_reverse. apply length_zero_extend, pad_len_ge_l. }
  assert (HY : length (reverse (zero_extend L Y)) = L).
  { rewrite length_reverse. apply length_zero_extend, pad_len_ge_r. }
  pose proof (add_loop_add_lsb (reverse (zero_extend L X))
                (reverse (zero_extend L Y)) [] [] 0%Z) as Hloop.
  cbn [app length] in Hloop. rewrite Hloop by (by rewrite ?HX, ?HY).
  destruct (add_lsb _ _ _) as [c R]. done.
Qed.

Lemma binary_add_result X Y X' Y' r :
  binary_add X Y = Ok (X', Y', r) -> r = add_result X Y.
Proof. rewrite binary_add_spec. by intros [= _ _ <-]. Qed.

Lemma add_result_length X Y :
  pad_len (length X) (length Y) <= length (add_result X Y)
    <= S (pad_len (length X) (length Y)).
Proof.
  unfold add_result. set (L := pad_len (length X) (length Y)).
  pose proof (add_lsb_length (reverse (zero_extend L X))
                (reverse (zero_extend L Y)) 0%Z) as Hl.
  rewrite !length_reverse, !length_zero_extend in Hl
    by (apply pad_len_ge_l || apply pad_len_ge_r).
  destruct (add_lsb _ _ _) as [c R]. cbn [snd] in Hl.
  rewrite length_reverse. destruct (c =? 1)%Z; rewrite ?length_app, Hl by done;
    simpl; lia.
Qed.

Lemma add_result_value X Y :
  bit_seq X -> bit_seq Y ->
  bit_seq (add_result X Y) /\
  bits_to_int (add_result X Y) = (bits_to_int X + bits_to_int Y)%Z.
Proof.
  intros HX HY. unfold add_result. set (L := pad_len (length X) (length Y)).
  pose proof (add_lsb_value (reverse (zero_extend L X))
                (reverse (zero_extend L Y)) 0%Z) as Hv.
  pose proof (add_lsb_length (reverse (zero_extend L X))
                (reverse (zero_extend L Y)) 0%Z) as Hl.
  rewrite !length_reverse, !length_zero_extend in Hl, Hv
    by (apply pad_len_ge_l || apply pad_len_ge_r).
  rewrite <- !bits_to_int_lsb, !bits_to_int_zero_extend in Hv.
  destruct (add_lsb _ _ _) as [c R]. cbn [fst snd] in *.
  destruct Hv as (Hc & HR & Hv);
    [done|by apply bit_seq_reverse, bit_seq_zero_extend..|by left|].
  specialize (Hl eq_refl).
  rewrite bit_seq_reverse, bits_to_int_lsb, reverse_involutive.
  destruct Hc as [-> | ->]; cbn [Z.eqb Pos.eqb].
  - split; [done|]. lia.
  - split; [apply Forall_app; split; [done|repeat constructor; by right]|].
    rewrite lsb_value_app, Hl. simpl lsb_value. lia.
Qed.

(** ** The padded halves *)

Lemma zero_extend_twice L L' X :
  length X <= L -> L <= L' ->
  zero_extend L' (zero_extend L X) = zero_extend L' X.
Proof.
  intros H1 H2. unfold zero_extend at 1 3.
  rewrite length_zero_extend by done. unfold zero_extend.
  rewrite app_assoc, <- replicate_add. do 2 f_equal. lia.
Qed.

Lemma split_pad_spec A B :
  split_pad A B =
    (zero_extend (len_A1 (length A) (length B)) (take (length A / 2) A),
     zero_extend (len_2 (length A) (length B)) (drop (length A / 2) A),
     zero_extend (len_B1 (length A) (length B)) (take (length B / 2) B),
     zero_extend (len_2 (length A) (length B)) (drop (length B / 2) B)).
Proof.
  unfold split_pad, len_2, len_B1, len_A1.
  set (A1 := take (length A / 2) A). set (A2 := drop (length A / 2) A).
  set (B1 := take (length B / 2) B). set (B2 := drop (length B / 2) B).
  assert (HA1 : length A1 = length A / 2) by (unfold A1; rewrite length_take; lia).
  assert (HB1 : length B1 = length B / 2) by (unfold B1; rewrite length_take; lia).
  assert (HA2 : length A2 = length A - length A / 2) by apply length_drop.
  assert (HB2 : length B2 = length B - length B / 2) by apply length_drop.
  rewrite <- HA2, <- HB2, <- HA1, <- HB1. clear HA1 HB1 HA2 HB2.
  generalize A1 A2 B1 B2. clear. intros A1 A2 B1 B2.
  cbn zeta. rewrite (pad_same_length_spec A1 B1).
  set (m1 := pad_len (length A1) (length B1)).
  pose proof (pad_len_ge_l (length A1) (length B1)).
  pose proof (pad_len_ge_r (length A1) (length B1)).
  rewrite (pad_same_length_spec (zero_extend m1 A1) B2).
  rewrite (length_zero_extend m1 A1) by done.
  set (m2 := pad_len m1 (length B2)).
  pose proof (pad_len_ge_l m1 (length B2)).
  pose proof (pad_len_ge_r m1 (length B2)).
  rewrite (pad_same_length_spec A2 (zero_extend m1 B1)).
  rewrite (length_zero_extend m1 B1) by done.
  set (m3 := pad_len (length A2) m1).
  pose proof (pad_len_ge_l (length A2) m1).
  pose proof (pad_len_ge_r (length A2) m1).
  rewrite (pad_same_length_spec (zero_extend m3 A2) (zero_extend m2 B2)).
  rewrite (length_zero_extend m3 A2), (length_zero_extend m2 B2) by done.
  set (m4 := pad_len m3 m2).
  pose proof (pad_len_ge_l m3 m2). pose proof (pad_len_ge_r m3 m2).
  rewrite !zero_extend_twice by (done || lia). done.
Qed.

(** ** Lengths of the padded halves *)

Lemma evenup_mono k k' : k <= k' -> evenup k <= evenup k'.
Proof.
  intros H.
  destruct (evenup_cases k) as [[-> Hk]|(-> & Hk1 & Hk2)];
  destruct (evenup_cases k') as [[-> Hk']|(-> & Hk1' & Hk2')];
    try lia.
  destruct Hk' as [Hk'| ->]; lia.
Qed.

Lemma evenup_max x y : evenup (x `max` y) = evenup x `max` evenup y.
Proof.
  destruct (Nat.max_spec x y) as [[H ->]|[H ->]].
  - pose proof (evenup_mono x y). lia.
  - pose proof (evenup_mono y x). lia.
Qed.

Lemma evenup_idem k : evenup (evenup k) = evenup k.
Proof. apply evenup_fixed, evenup_even_or_one. Qed.

Lemma pad_len_max x y : pad_len x y = evenup x `max` evenup y.
Proof. apply evenup_max. Qed.

Lemma evenup_half_lt M x : 2 <= M -> x <= M - M / 2 -> evenup x < M.
Proof.
  intros HM Hx. pose proof (evenup_mono x (M - M / 2) Hx).
  destruct (evenup_cases (M - M / 2)) as [[H1 H2]|(H1 & H2 & H3)]; lia.
Qed.

Lemma len_halves_bounds a b :
  2 <= a ->
  1 <= len_A1 a b < a `max` b /\
  1 <= len_B1 a b < a `max` b /\
  1 <= len_2 a b < a `max` b.
Proof.
  intros Ha. unfold len_2, len_B1, len_A1.
  rewrite !pad_len_max, ?evenup_max, ?evenup_idem.
  assert (H1 : 1 <= evenup (a / 2)) by (pose proof (evenup_ge (a / 2)); lia).
  assert (H2 : evenup (a / 2) < a `max` b) by (apply evenup_half_lt; lia).
  assert (H3 : evenup (b / 2) < a `max` b) by (apply evenup_half_lt; lia).
  assert (H4 : evenup (a - a / 2) < a `max` b) by (apply evenup_half_lt; lia).
  assert (H5 : evenup (b - b / 2) < a `max` b) by (apply evenup_half_lt; lia).
  revert H1 H2 H3 H4 H5.
  generalize (evenup (a / 2)) (evenup (b / 2)) (evenup (a - a / 2))
    (evenup (b - b / 2)) (a `max` b).
  clear. intros. lia.
Qed.

Lemma len_halves_equal n :
  2 <= n ->
  len_A1 n n = evenup (n - n / 2) /\
  len_B1 n n = evenup (n - n / 2) /\
  len_2 n n = evenup (n - n / 2).
Proof.
  intros Hn. unfold len_2, len_B1, len_A1.
  rewrite !pad_len_max, ?evenup_max, ?evenup_idem.
  assert (H : evenup (n / 2) <= evenup (n - n / 2)) by (apply evenup_mono; lia).
  revert H. generalize (evenup (n / 2)) (evenup (n - n / 2)).
  clear. intros. lia.
Qed.

(** ** [binary_mult]: unfolding, termination, output width *)

Lemma binary_mult_fuel_base fuel A B :
  length A <= 1 ->
  binary_mult_fuel fuel A B =
    match A, B with
    | a :: _, b :: _ => Ok [(a * b)%Z]
    | _, _ => IndexError
    end.
Proof.
  intros H. destruct fuel; simpl;
    (destruct (1 <? length A) eqn:E; [apply Nat.ltb_lt in E; lia|done]).
Qed.

Lemma binary_mult_fuel_rec fuel A B :
  2 <= length A ->
  binary_mult_fuel (S fuel) A B =
    let '(A1, A2, B1, B2) := split_pad A B in
    A1B1 ← binary_mult_fuel fuel A1 B1;
    A1B2 ← binary_mult_fuel fuel A1 B2;
    A2B1 ← binary_mult_fuel fuel A2 B1;
    A2B2 ← binary_mult_fuel fuel A2 B2;
    combine (length A) A1B1 A1B2 A2B1 A2B2.
Proof.
  intros H. cbn [binary_mult_fuel].
  destruct (1 <? length A) eqn:E; [done|apply Nat.ltb_ge in E; lia].
Qed.

Lemma combine_spec len A1B1 A1B2 A2B1 A2B2 :
  combine len A1B1 A1B2 A2B1 A2B2 =
    length_modifier (combine_sum len A1B1 A1B2 A2B1 A2B2) len.
Proof.
  unfold combine, combine_sum.
  rewrite binary_add_spec. cbn [mbind outcome_bind].
  rewrite !append_n_times_replicate.
  rewrite binary_add_spec. cbn [mbind outcome_bind].
  rewrite binary_add_spec. cbn [mbind outcome_bind]. done.
Qed.

Lemma combine_length len A1B1 A1B2 A2B1 A2B2 :
  exists r, combine len A1B1 A1B2 A2B1 A2B2 = Ok r /\ length r = 2 * len.
Proof.
  rewrite combine_spec, length_modifier_spec. eexists. split; [done|].
  eapply length_modifier_length, length_modifier_spec.
Qed.

Lemma binary_mult_fuel_total fuel : forall A B,
  length A `max` length B <= fuel ->
  2 <= length A \/ (length A = 1 /\ 1 <= length B) ->
  exists r, binary_mult_fuel fuel A B = Ok r /\
            length r = if 1 <? length A then 2 * length A else 1.
Proof.
  induction fuel as [|fuel IH]; intros A B Hf Hv.
  - destruct Hv as [Hv|[Hv1 Hv2]]; lia.
  - destruct Hv as [Hv|[Hv1 Hv2]].
    + rewrite binary_mult_fuel_rec by done. rewrite split_pad_spec.
      destruct (len_halves_bounds (length A) (length B) Hv) as (H1 & H2 & H3).
      set (A1 := zero_extend (len_A1 _ _) _).
      set (A2 := zero_extend (len_2 _ _) (drop _ A)).
      set (B1 := zero_extend (len_B1 _ _) _).
      set (B2 := zero_extend (len_2 _ _) (drop _ B)).
      assert (HA1 : 1 <= length A1 < length A `max` length B).
      { unfold A1, zero_extend. rewrite length_app, length_replicate, length_take. lia. }
      assert (HA2 : 1 <= length A2 < length A `max` length B).
      { unfold A2, zero_extend. rewrite length_app, length_replicate, length_drop. lia. }
      assert (HB1 : 1 <= length B1 < length A `max` length B).
      { unfold B1, zero_extend. rewrite length_app, length_replicate, length_take. lia. }
      assert (HB2 : 1 <= length B2 < length A `max` length B).
      { unfold B2, zero_extend. rewrite length_app, length_replicate, length_drop. lia. }
      destruct (IH A1 B1) as (r11 & -> & _); [lia..|].
      destruct (IH A1 B2) as (r12 & -> & _); [lia..|].
      destruct (IH A2 B1) as (r21 & -> & _); [lia..|].
      destruct (IH A2 B2) as (r22 & -> & _); [lia..|].
      cbn [mbind outcome_bind].
      destruct (combine_length (length A) r11 r12 r21 r22) as (r & -> & Hr).
      exists r. split; [done|].
      destruct (1 <? length A) eqn:E; [done|apply Nat.ltb_ge in E; lia].
    + rewrite binary_mult_fuel_base by lia.
      destruct A as [|a A]; [simpl in *; lia|].
      destruct B as [|b B]; [simpl in *; lia|].
      eexists. split; [done|]. simpl in Hv1.
      destruct (1 <? length (a :: A)) eqn:E; [apply Nat.ltb_lt in E; simpl in E; lia|done].
Qed.

Lemma binary_mult_fuel_mono fuel : forall fuel' A B r,
  binary_mult_fuel fuel A B = Ok r -> fuel <= fuel' ->
  binary_mult_fuel fuel' A B = Ok r.
Proof.
  induction fuel as [|fuel IH]; intros fuel' A B r Hr Hf.
  - destruct (Nat.le_gt_cases (length A) 1) as [H|H].
    + rewrite binary_mult_fuel_base in * by done. done.
    + simpl in Hr. destruct (1 <? length A) eqn:E; [done|apply Nat.ltb_ge in E; lia].
  - destruct (Nat.le_gt_cases (length A) 1) as [H|H].
    + rewrite binary_mult_fuel_base in * by done. done.
    + destruct fuel' as [|fuel']; [lia|].
      rewrite binary_mult_fuel_rec in * by lia.
      destruct (split_pad A B) as [[[A1 A2] B1] B2].
      destruct (binary_mult_fuel fuel A1 B1) as [r11| |] eqn:E11; try done.
      destruct (binary_mult_fuel fuel A1 B2) as [r12| |] eqn:E12; try done.
      destruct (binary_mult_fuel fuel A2 B1) as [r21| |] eqn:E21; try done.
      destruct (binary_mult_fuel fuel A2 B2) as [r22| |] eqn:E22; try done.
      rewrite (IH fuel' _ _ _ E11), (IH fuel' _ _ _ E12),
        (IH fuel' _ _ _ E21), (IH fuel' _ _ _ E22) by lia.
      done.
Qed.

Lemma binary_mult_fuel_enough fuel A B :
  length A `max` length B <= fuel ->
  binary_mult_fuel fuel A B = binary_mult A B.
Proof.
  intros Hf. unfold binary_mult.
  destruct (Nat.le_gt_cases (length A) 1) as [H|H].
  - by rewrite !binary_mult_fuel_base.
  - destruct (binary_mult_fuel_total (length A `max` length B) A B)
      as (r & Hr & _); [done|lia|].
    rewrite Hr. by apply (binary_mult_fuel_mono _ _ _ _ _ Hr).
Qed.

(** ** Correctness of [binary_mult] on even lengths *)

Lemma bit_seq_app X Y : bit_seq X -> bit_seq Y -> bit_seq (X ++ Y).
Proof. intros HX HY. by apply Forall_app. Qed.

Lemma bit_seq_take n X : bit_seq X -> bit_seq (take n X).
Proof. apply Forall_take. Qed.

Lemma bit_seq_drop n X : bit_seq X -> bit_seq (drop n X).
Proof. apply Forall_drop. Qed.

Lemma bits_to_int_split n X :
  bits_to_int X =
    (bits_to_int (take n X) * 2 ^ Z.of_nat (length X - n)
     + bits_to_int (drop n X))%Z.
Proof.
  rewrite <- (take_drop n X) at 1. by rewrite bits_to_int_app, length_drop.
Qed.

Lemma bits_to_int_drop_small m X :
  bit_seq X -> m <= length X ->
  (bits_to_int X < 2 ^ Z.of_nat m)%Z ->
  bits_to_int (drop (length X - m) X) = bits_to_int X.
Proof.
  intros HX Hm Hv.
  rewrite (bits_to_int_split (length X - m) X) in Hv |- *.
  replace (length X - (length X - m)) with m in * by lia.
  pose proof (bits_to_int_bound (take (length X - m) X)
                (bit_seq_take _ _ HX)) as [H1 _].
  pose proof (bits_to_int_bound (drop (length X - m) X)
                (bit_seq_drop _ _ HX)) as [H2 _].
  assert (0 < 2 ^ Z.of_nat m)%Z by (apply Z.pow_pos_nonneg; lia).
  assert (bits_to_int (take (length X - m) X) = 0)%Z by nia.
  lia.
Qed.

Lemma length_modifier_value X len r :
  bit_seq X -> (bits_to_int X < 2 ^ Z.of_nat (2 * len))%Z ->
  length_modifier X len = Ok r ->
  bit_seq r /\ bits_to_int r = bits_to_int X.
Proof.
  intros HX Hv. rewrite length_modifier_spec. intros [= <-].
  destruct (length X <? len * 2) eqn:E.
  - split; [by apply bit_seq_zero_extend|apply bits_to_int_zero_extend].
  - apply Nat.ltb_ge in E. split; [by apply bit_seq_drop|].
    rewrite Nat.mul_comm. apply bits_to_int_drop_small; [done|lia|done].
Qed.

Lemma combine_value len P11 P12 P21 P22 :
  bit_seq P11 -> bit_seq P12 -> bit_seq P21 -> bit_seq P22 ->
  bit_seq (combine_sum len P11 P12 P21 P22) /\
  bits_to_int (combine_sum len P11 P12 P21 P22) =
    (bits_to_int P11 * 2 ^ Z.of_nat len
     + (bits_to_int P12 + bits_to_int P21) * 2 ^ Z.of_nat (len / 2)
     + bits_to_int P22)%Z.
Proof.
  intros H11 H12 H21 H22. unfold combine_sum.
  destruct (add_result_value P12 P21 H12 H21) as [Hc1 Hc2].
  destruct (add_result_value (P11 ++ replicate len 0%Z)
              (add_result P12 P21 ++ replicate (len / 2) 0%Z)) as [Hm1 Hm2].
  { apply bit_seq_app; [done|apply bit_seq_replicate]. }
  { apply bit_seq_app; [done|apply bit_seq_replicate]. }
  destruct (add_result_value _ P22 Hm1 H22) as [Hf1 Hf2].
  split; [done|]. rewrite Hf2, Hm2, !bits_to_int_app, Hc2.
  rewrite !bits_to_int_replicate, !length_replicate. lia.
Qed.

Lemma binary_mult_fuel_even_correct fuel : forall A B,
  length A = length B -> 1 <= length A -> length A <= fuel ->
  even_or_one (length A) -> bit_seq A -> bit_seq B ->
  exists r, binary_mult_fuel fuel A B = Ok r /\ bit_seq r /\
            bits_to_int r = (bits_to_int A * bits_to_int B)%Z.
Proof.
  induction fuel as [|fuel IH]; intros A B Hl Hn Hf He HA HB; [lia|].
  destruct (Nat.le_gt_cases (length A) 1) as [H1|H1].
  - rewrite binary_mult_fuel_base by done.
    destruct A as [|a [|? ?]]; simpl in *; try lia.
    destruct B as [|b [|? ?]]; simpl in *; try lia.
    apply Forall_cons in HA as [Ha _]. apply Forall_cons in HB as [Hb _].
    eexists. split; [done|]. unfold bits_to_int. simpl.
    split; [|lia]. apply Forall_singleton.
    destruct Ha as [-> | ->], Hb as [-> | ->]; by (left + right).
  - destruct He as [He|He]; [|lia].
    rewrite binary_mult_fuel_rec by lia. rewrite split_pad_spec, <- Hl.
    destruct (len_halves_equal (length A)) as (-> & -> & ->); [lia|].
    replace (length A - length A / 2) with (length A / 2) by lia.
    set (k := length A / 2). set (h := evenup k).
    assert (Hk : length A = 2 * k) by lia.
    assert (Hh : k <= h) by apply evenup_ge.
    assert (Hh' : h < length A).
    { unfold h. apply evenup_half_lt; lia. }
    pose proof (evenup_even_or_one k) as Hhe. fold h in Hhe.
    assert (HlA1 : length (take k A) = k) by (rewrite length_take; lia).
    assert (HlB1 : length (take k B) = k) by (rewrite length_take; lia).
    assert (HlA2 : length (drop k A) = k) by (rewrite length_drop; lia).
    assert (HlB2 : length (drop k B) = k) by (rewrite length_drop; lia).
    set (A1 := zero_extend h (take k A)). set (A2 := zero_extend h (drop k A)).
    set (B1 := zero_extend h (take k B)). set (B2 := zero_extend h (drop k B)).
    assert (HA1 : length A1 = h) by (apply length_zero_extend; lia).
    assert (HA2 : length A2 = h) by (apply length_zero_extend; lia).
    assert (HB1 : length B1 = h) by (apply length_zero_extend; lia).
    assert (HB2 : length B2 = h) by (apply length_zero_extend; lia).
    assert (bit_seq A1) by by apply bit_seq_zero_extend, bit_seq_take.
    assert (bit_seq A2) by by apply bit_seq_zero_extend, bit_seq_drop.
    assert (bit_seq B1) by by apply bit_seq_zero_extend, bit_seq_take.
    assert (bit_seq B2) by by apply bit_seq_zero_extend, bit_seq_drop.
    destruct (IH A1 B1) as (r11 & -> & Hb11 & Hv11);
      [lia|lia|lia|by rewrite HA1|done|done|].
    destruct (IH A1 B2) as (r12 & -> & Hb12 & Hv12);
      [lia|lia|lia|by rewrite HA1|done|done|].
    destruct (IH A2 B1) as (r21 & -> & Hb21 & Hv21);
      [lia|lia|lia|by rewrite HA2|done|done|].
    destruct (IH A2 B2) as (r22 & -> & Hb22 & Hv22);
      [lia|lia|lia|by rewrite HA2|done|done|].
    cbn [mbind outcome_bind]. rewrite combine_spec.
    destruct (combine_value (length A) r11 r12 r21 r22) as [Hcb Hcv];
      [done..|].
    fold k in Hcv.
    unfold A1, A2, B1, B2 in *. rewrite !bits_to_int_zero_extend in *.
    pose proof (bits_to_int_split k A) as HvA.
    pose proof (bits_to_int_split k B) as HvB.
    replace (length A - k) with k in HvA by lia.
    replace (length B - k) with k in HvB by lia.
    assert (Hprod : bits_to_int (combine_sum (length A) r11 r12 r21 r22)
                    = (bits_to_int A * bits_to_int B)%Z).
    { rewrite Hcv, Hv11, Hv12, Hv21, Hv22, HvA, HvB, Hk.
      replace (Z.of_nat (2 * k)) with (Z.of_nat k + Z.of_nat k)%Z by lia.
      rewrite Z.pow_add_r by lia. ring. }
    pose proof (bits_to_int_bound A HA) as HbA.
    pose proof (bits_to_int_bound B HB) as HbB.
    destruct (length_modifier (combine_sum (length A) r11 r12 r21 r22)
                (length A)) as [r| |] eqn:Er;
      try (rewrite length_modifier_spec in Er; done).
    destruct (length_modifier_value _ (length A) r Hcb) as [Hr1 Hr2];
      [|exact Er|].
    { rewrite Hprod.
      replace (Z.of_nat (2 * length A))
        with (Z.of_nat (length A) + Z.of_nat (length B))%Z by lia.
      rewrite Z.pow_add_r by lia. nia. }
    exists r. split; [done|]. split; [done|]. by rewrite Hr2.
Qed.

(** ** Conversions between integers and bit sequences *)

Lemma int_to_bits_length n : forall a, length (int_to_bits a n) = n.
Proof.
  induction n as [|n IH]; intros a; simpl; [done|].
  rewrite length_app, IH. simpl. lia.
Qed.

Lemma int_to_bits_bit_seq n : forall a, bit_seq (int_to_bits a n).
Proof.
  induction n as [|n IH]; intros a; simpl; [constructor|].
  apply bit_seq_app; [apply IH|]. apply Forall_singleton.
  unfold is_bit. lia.
Qed.

Lemma bits_to_int_int_to_bits n : forall a,
  bits_to_int (int_to_bits a n) = (a mod 2 ^ Z.of_nat n)%Z.
Proof.
  induction n as [|n IH]; intros a.
  - simpl. by rewrite Z.mod_1_r.
  - cbn [int_to_bits]. rewrite bits_to_int_snoc, IH.
    rewrite Nat2Z.inj_succ, Z.pow_succ_r by lia.
    assert (0 < 2 ^ Z.of_nat n)%Z by (apply Z.pow_pos_nonneg; lia).
    rewrite Z.rem_mul_r by lia. lia.
Qed.

Lemma bits_to_int_int_to_bits_small n a :
  (0 <= a < 2 ^ Z.of_nat n)%Z -> bits_to_int (int_to_bits a n) = a.
Proof. intros H. rewrite bits_to_int_int_to_bits. by apply Z.mod_small. Qed.

(** On every even bit length, and on length 1, the product is exact. *)
Lemma binary_mult_even_correct n a b :
  even_or_one n -> 1 <= n ->
  (0 <= a < 2 ^ Z.of_nat n)%Z -> (0 <= b < 2 ^ Z.of_nat n)%Z ->
  exists r, binary_mult (int_to_bits a n) (int_to_bits b n) = Ok r /\
            bits_to_int r = (a * b)%Z.
Proof.
  intros He Hn Ha Hb. unfold binary_mult.
  destruct (binary_mult_fuel_even_correct
              (length (int_to_bits a n) `max` length (int_to_bits b n))
              (int_to_bits a n) (int_to_bits b n)) as (r & Hr & _ & Hv).
  - by rewrite !int_to_bits_length.
  - by rewrite int_to_bits_length.
  - lia.
  - by rewrite int_to_bits_length.
  - apply int_to_bits_bit_seq.
  - apply int_to_bits_bit_seq.
  - exists r. split; [done|].
    by rewrite Hv, !bits_to_int_int_to_bits_small.
Qed.

(** ** Recursive invocations *)


(** ** The store: reading, writing, allocating *)

Section store_facts.
Import Store.
Implicit Types (σ : store) (x y z : ref) (l : list Z).

Lemma contents_update_eq x l σ :
  x < length σ -> contents (update x l σ) x = l.
Proof.
  intros H. unfold contents, update. by rewrite list_lookup_insert_eq.
Qed.

Lemma contents_update_ne x y l σ :
  x <> y -> contents (update x l σ) y = contents σ y.
Proof.
  intros H. unfold contents, update. by rewrite list_lookup_insert_ne.
Qed.

Lemma length_update x l σ : length (update x l σ) = length σ.
Proof. apply length_insert. Qed.

Lemma update_update x l l' σ : update x l (update x l' σ) = update x l σ.
Proof. apply list_insert_insert_eq. Qed.

Lemma update_comm x y l l' σ :
  x <> y -> update x l (update y l' σ) = update y l' (update x l σ).
Proof. intros H. unfold update. by rewrite list_insert_insert_ne. Qed.

Lemma update_contents x σ : update x (contents σ x) σ = σ.
Proof.
  unfold update, contents. destruct (σ !! x) as [l|] eqn:E.
  - by apply list_insert_id.
  - apply list_insert_ge. by apply lookup_ge_None.
Qed.

Lemma update_app_l x l σ τ :
  x < length σ -> update x l (σ ++ τ) = update x l σ ++ τ.
Proof. intros H. by apply insert_app_l. Qed.

Lemma contents_app_l x σ τ :
  x < length σ -> contents (σ ++ τ) x = contents σ x.
Proof. intros H. unfold contents. by rewrite lookup_app_l. Qed.

Lemma contents_alloc l σ : contents (σ ++ [l]) (length σ) = l.
Proof. unfold contents. by rewrite list_lookup_middle. Qed.

Lemma contents_alloc_at l σ n :
  n = length σ -> contents (σ ++ [l]) n = l.
Proof. intros ->. apply contents_alloc. Qed.

Lemma update_alloc l l' σ : update (length σ) l (σ ++ [l']) = σ ++ [l].
Proof.
  unfold update. rewrite <- (Nat.add_0_r (length σ)) at 1.
  by rewrite insert_app_r.
Qed.

(** ** The store operations in terms of the operations on contents *)

Lemma prepend_n_times_store x n : forall σ,
  x < length σ ->
  prepend_n_times x n σ =
    update x (Pure.prepend_n_times (contents σ x) n) σ.
Proof.
  induction n as [|n IH]; intros σ Hx; simpl.
  - by rewrite update_contents.
  - unfold insert0. rewrite IH by by rewrite length_update.
    by rewrite contents_update_eq, update_update.
Qed.

Lemma pop_n_times_store x n : forall σ,
  x < length σ ->
  pop_n_times x n σ =
    (r ← Pure.pop_n_times (contents σ x) n; Ok (update x r σ)).
Proof.
  induction n as [|n IH]; intros σ Hx; simpl.
  - by rewrite update_contents.
  - destruct (contents σ x) as [|b X'] eqn:E; [done|].
    rewrite IH by by rewrite length_update.
    rewrite contents_update_eq by done.
    destruct (Pure.pop_n_times X' n); cbn [mbind outcome_bind]; [|done..].
    by rewrite update_update.
Qed.

Lemma length_modifier_store x len σ :
  x < length σ ->
  length_modifier x len σ =
    (r ← Pure.length_modifier (contents σ x) len; Ok (update x r σ)).
Proof.
  intros Hx. unfold length_modifier, Pure.length_modifier.
  destruct (length (contents σ x) <? len * 2).
  - by rewrite prepend_n_times_store.
  - by apply pop_n_times_store.
Qed.

Lemma append_n_times_store x n σ :
  x < length σ ->
  append_n_times x n σ =
    (update x (Pure.append_n_times (contents σ x) n) σ
       ++ [Pure.prepend_n_times [] n], x).
Proof.
  intros Hx. unfold append_n_times, alloc, Pure.append_n_times.
  rewrite prepend_n_times_store by (rewrite length_app; simpl; lia).
  rewrite contents_alloc, update_alloc, contents_alloc.
  rewrite contents_app_l by done. by rewrite update_app_l.
Qed.

Lemma pad_same_length_store x y σ :
  x <> y -> x < length σ -> y < length σ ->
  pad_same_length x y σ =
    update y (Pure.pad_same_length (contents σ x) (contents σ y)).2
      (update x (Pure.pad_same_length (contents σ x) (contents σ y)).1 σ).
Proof.
  intros Hxy Hx Hy. unfold pad_same_length, Pure.pad_same_length.
  set (X := contents σ x). set (Y := contents σ y).
  destruct (length Y <? length X).
  - rewrite prepend_n_times_store by done. fold Y.
    rewrite contents_update_ne by done. fold X.
    destruct (negb (length X mod 2 =? 0) && negb (length X =? 1));
      cbn [fst snd].
    + unfold insert0.
      repeat first
        [ rewrite contents_update_eq by (by rewrite ?length_update)
        | rewrite contents_update_ne by done ].
      fold X. by rewrite (update_comm x y), update_update.
    + unfold X. by rewrite update_contents.
  - rewrite prepend_n_times_store by done. fold X.
    rewrite contents_update_eq by done.
    destruct (negb (length (Pure.prepend_n_times X (length Y - length X)) mod 2 =? 0)
              && negb (length (Pure.prepend_n_times X (length Y - length X)) =? 1));
      cbn [fst snd].
    + unfold insert0.
      repeat first
        [ rewrite contents_update_eq by (by rewrite ?length_update)
        | rewrite contents_update_ne by done ].
      fold Y. by rewrite update_update.
    + rewrite <- (update_contents y (update x _ σ)) at 1.
      by rewrite contents_update_ne by done.
Qed.

Lemma add_loop_store Xs : forall y result index carry σ,
  result <> y -> result < length σ ->
  add_loop Xs y result index carry σ =
    ('(c, R) ← Pure.add_loop Xs (contents σ y) index carry
                 (contents σ result);
     Ok (c, update result R σ)).
Proof.
  induction Xs as [|X_element Xs IH]; intros y result index carry σ Hne Hr.
  - simpl. by rewrite update_contents.
  - cbn [add_loop Pure.add_loop].
    destruct (contents σ y !! index) as [yv|]; [|done].
    destruct (index <? length (contents σ result)); [|done].
    rewrite IH by (by rewrite ?length_update).
    rewrite contents_update_ne, contents_update_eq by done.
    destruct (Pure.add_loop Xs _ _ _ _) as [[c R]| |];
      cbn [mbind outcome_bind]; [|done..].
    by rewrite update_update.
Qed.

Lemma binary_add_store x y σ :
  x <> y -> x < length σ -> y < length σ ->
  binary_add x y σ =
    ('(X', Y', r) ← Pure.binary_add (contents σ x) (contents σ y);
     Ok (update y Y' (update x X' σ) ++ [r], length σ)).
Proof.
  intros Hxy Hx Hy. unfold binary_add, Pure.binary_add, reverse_in_place, alloc.
  rewrite pad_same_length_store by done.
  destruct (Pure.pad_same_length (contents σ x) (contents σ y)) as [PX PY].
  cbn [fst snd].
  repeat first
    [ rewrite contents_update_eq by (rewrite ?length_update; lia)
    | rewrite contents_update_ne by lia ].
  assert (update y (reverse PY)
            (update x (reverse PX) (update y PY (update x PX σ)))
          = update y (reverse PY) (update x (reverse PX) σ)) as ->.
  { by rewrite (update_comm x y (reverse PX)), !update_update. }
  set (σ3 := update y (reverse PY) (update x (reverse PX) σ)).
  assert (Hl : length σ3 = length σ) by (unfold σ3; by rewrite !length_update).
  assert (HX : contents σ3 x = reverse PX).
  { unfold σ3. rewrite contents_update_ne, contents_update_eq; done. }
  assert (HY : contents σ3 y = reverse PY).
  { unfold σ3. rewrite contents_update_eq; [done|by rewrite length_update]. }
  rewrite contents_app_l, HX by lia.
  rewrite add_loop_store by (rewrite ?length_app; simpl; lia).
  rewrite contents_app_l, HY, contents_alloc by lia.
  destruct (Pure.add_loop _ _ _ _ _) as [[c R]| |];
    cbn [mbind outcome_bind]; [|done..].
  rewrite update_alloc.
  rewrite <- Hl.
  destruct (c =? 1)%Z.
  - by rewrite contents_alloc, update_alloc, contents_alloc, update_alloc.
  - by rewrite contents_alloc, update_alloc.
Qed.

(** ** Frames *)

Lemma extends_refl σ : extends σ σ.
Proof. exists []. by rewrite app_nil_r. Qed.

Lemma extends_trans σ1 σ2 σ3 : extends σ1 σ2 -> extends σ2 σ3 -> extends σ1 σ3.
Proof. intros [τ1 ->] [τ2 ->]. exists (τ1 ++ τ2). by rewrite app_assoc. Qed.

Lemma extends_app σ0 σ τ : extends σ0 σ -> extends σ0 (σ ++ τ).
Proof. intros [τ0 ->]. exists (τ0 ++ τ). by rewrite app_assoc. Qed.

Lemma extends_update σ0 σ x l :
  extends σ0 σ -> length σ0 <= x -> extends σ0 (update x l σ).
Proof.
  intros [τ ->] Hx. exists (update (x - length σ0) l τ).
  unfold update. by rewrite insert_app_r_alt.
Qed.

Ltac solve_extends :=
  repeat first [ apply extends_app | apply extends_update; [|lia] ]; done.

Lemma extends_length σ0 σ : extends σ0 σ -> length σ0 <= length σ.
Proof. intros [τ ->]. rewrite length_app. lia. Qed.

Lemma extends_contents σ0 σ x :
  extends σ0 σ -> x < length σ0 -> contents σ x = contents σ0 x.
Proof. intros [τ ->] Hx. by apply contents_app_l. Qed.

Lemma extends_lookup σ0 σ x :
  extends σ0 σ -> x < length σ0 -> σ !! x = σ0 !! x.
Proof. intros [τ ->] Hx. by apply lookup_app_l. Qed.

(** ** Effect of each routine on the store *)

Lemma pad_same_length_step x y σ :
  x <> y -> x < length σ -> y < length σ ->
  length (pad_same_length x y σ) = length σ /\
  contents (pad_same_length x y σ) x =
    (Pure.pad_same_length (contents σ x) (contents σ y)).1 /\
  contents (pad_same_length x y σ) y =
    (Pure.pad_same_length (contents σ x) (contents σ y)).2 /\
  (forall z, z <> x -> z <> y ->
             contents (pad_same_length x y σ) z = contents σ z) /\
  (forall σ0, extends σ0 σ -> length σ0 <= x -> length σ0 <= y ->
              extends σ0 (pad_same_length x y σ)).
Proof.
  intros Hxy Hx Hy. rewrite pad_same_length_store by done.
  split; [by rewrite !length_update|].
  split; [by rewrite contents_update_ne, contents_update_eq|].
  split; [by rewrite contents_update_eq by by rewrite length_update|].
  split.
  - intros z Hzx Hzy. by rewrite !contents_update_ne.
  - intros σ0 He H1 H2. solve_extends.
Qed.

Lemma binary_add_step x y σ :
  x <> y -> x < length σ -> y < length σ ->
  exists σ',
    binary_add x y σ = Ok (σ', length σ) /\
    length σ' = S (length σ) /\
    contents σ' (length σ) = add_result (contents σ x) (contents σ y) /\
    (forall z, z <> x -> z <> y -> z < length σ ->
               contents σ' z = contents σ z) /\
    (forall σ0, extends σ0 σ -> length σ0 <= x -> length σ0 <= y ->
                extends σ0 σ').
Proof.
  intros Hxy Hx Hy. rewrite binary_add_store, binary_add_spec by done.
  cbn [mbind outcome_bind]. eexists. split; [done|].
  split; [rewrite length_app, !length_update; simpl; lia|].
  split.
  { apply contents_alloc_at. by rewrite !length_update. }
  split.
  - intros z Hzx Hzy Hz.
    rewrite contents_app_l by by rewrite !length_update.
    by rewrite !contents_update_ne.
  - intros σ0 He H1 H2. solve_extends.
Qed.

Lemma append_n_times_step x n σ :
  x < length σ ->
  exists σ',
    append_n_times x n σ = (σ', x) /\
    length σ' = S (length σ) /\
    contents σ' x = contents σ x ++ replicate n 0%Z /\
    (forall z, z <> x -> z < length σ -> contents σ' z = contents σ z) /\
    (forall σ0, extends σ0 σ -> length σ0 <= x -> extends σ0 σ').
Proof.
  intros Hx. rewrite append_n_times_store by done.
  eexists. split; [done|].
  split; [rewrite length_app, length_update; simpl; lia|].
  split.
  { rewrite contents_app_l by by rewrite length_update.
    by rewrite contents_update_eq, append_n_times_replicate. }
  split.
  - intros z Hzx Hz. rewrite contents_app_l by by rewrite length_update.
    by rewrite contents_update_ne.
  - intros σ0 He H1. solve_extends.
Qed.

Lemma length_modifier_step x len σ :
  x < length σ ->
  exists σ' r,
    Pure.length_modifier (contents σ x) len = Ok r /\
    length_modifier x len σ = Ok σ' /\
    length σ' = length σ /\
    contents σ' x = r /\
    (forall σ0, extends σ0 σ -> length σ0 <= x -> extends σ0 σ').
Proof.
  intros Hx. rewrite length_modifier_store by done.
  rewrite length_modifier_spec. cbn [mbind outcome_bind].
  eexists _, _. split; [done|]. split; [done|].
  split; [by rewrite length_update|].
  split; [by rewrite contents_update_eq|].
  intros σ0 He H1. solve_extends.
Qed.

(** ** The padded halves in the store *)

Lemma contents_app_r i σ τ :
  contents (σ ++ τ) (length σ + i) = contents τ i.
Proof. unfold contents. by rewrite lookup_app_r, Nat.add_comm, Nat.add_sub by lia. Qed.

Lemma update_app_r i l σ τ :
  update (length σ + i) l (σ ++ τ) = σ ++ update i l τ.
Proof. apply insert_app_r. Qed.

Lemma pad_same_length_suffix x y i j σ τ :
  x = length σ + i -> y = length σ + j ->
  i <> j -> i < length τ -> j < length τ ->
  pad_same_length x y (σ ++ τ) = σ ++ pad_same_length i j τ.
Proof.
  intros -> -> Hij Hi Hj.
  rewrite !pad_same_length_store by (rewrite ?length_app; lia).
  by rewrite !contents_app_r, !update_app_r.
Qed.

Lemma split_pad_store a b σ :
  a < length σ -> b < length σ ->
  split_pad a b σ =
    let '(A1, A2, B1, B2) := Pure.split_pad (contents σ a) (contents σ b) in
    (σ ++ [A1; A2; B1; B2],
     length σ, length σ + 1, length σ + 2, length σ + 3).
Proof.
  intros Ha Hb. unfold split_pad, Pure.split_pad, alloc.
  rewrite !contents_app_l by (rewrite ?length_app; cbn [length]; lia).
  generalize (take (length (contents σ a) / 2) (contents σ a))
    (drop (length (contents σ a) / 2) (contents σ a))
    (take (length (contents σ b) / 2) (contents σ b))
    (drop (length (contents σ b) / 2) (contents σ b)).
  intros A1 A2 B1 B2. clear Ha Hb.
  rewrite <- !app_assoc. cbn [app].
  rewrite !length_app. cbn [length].
  rewrite (pad_same_length_suffix _ _ 0 2) by (cbn [length]; lia).
  rewrite (pad_same_length_store 0 2) by (cbn [length]; lia).
  cbn [contents lookup list_lookup default id update insert list_insert].
  destruct (Pure.pad_same_length A1 B1) as [A1' B1']. cbn [fst snd].
  rewrite (pad_same_length_suffix _ _ 0 3) by (cbn [length]; lia).
  rewrite (pad_same_length_store 0 3) by (cbn [length]; lia).
  cbn [contents lookup list_lookup default id update insert list_insert].
  destruct (Pure.pad_same_length A1' B2) as [A1'' B2']. cbn [fst snd].
  rewrite (pad_same_length_suffix _ _ 1 2) by (cbn [length]; lia).
  rewrite (pad_same_length_store 1 2) by (cbn [length]; lia).
  cbn [contents lookup list_lookup default id update insert list_insert].
  destruct (Pure.pad_same_length A2 B1') as [A2' B1'']. cbn [fst snd].
  rewrite (pad_same_length_suffix _ _ 1 3) by (cbn [length]; lia).
  rewrite (pad_same_length_store 1 3) by (cbn [length]; lia).
  cbn [contents lookup list_lookup default id update insert list_insert].
  destruct (Pure.pad_same_length A2' B2') as [A2'' B2'']. cbn [fst snd].
  done.
Qed.

(** ** The multiplier on the store refines the multiplier on contents *)

Lemma contents_suffix x i σ τ :
  x = length σ + i -> contents (σ ++ τ) x = contents τ i.
Proof. intros ->. apply contents_app_r. Qed.

Lemma binary_mult_fuel_refines fuel : forall a b σ,
  a < length σ -> b < length σ ->
  refines σ
    (Pure.binary_mult_fuel fuel (contents σ a) (contents σ b))
    (binary_mult_fuel fuel a b σ).
Proof.
  induction fuel as [|fuel IH]; intros a b σ Ha Hb;
    cbn [binary_mult_fuel Pure.binary_mult_fuel];
    (destruct (1 <? length (contents σ a)) eqn:Elen;
     [|destruct (contents σ a) as [|a0 ?]; [done|];
       destruct (contents σ b) as [|b0 ?]; [done|];
       exists (σ ++ [[(a0 * b0)%Z]]), (length σ);
       split; [done|]; split; [apply extends_app, extends_refl|];
       split; [rewrite length_app; simpl; lia|apply contents_alloc]]);
    [done|].
  rewrite split_pad_store by done.
  destruct (Pure.split_pad (contents σ a) (contents σ b))
    as [[[A1 A2] B1] B2].
  set (len := length (contents σ a)). clearbody len. clear Elen.
  set (σ2 := σ ++ [A1; A2; B1; B2]).
  assert (Hl2 : length σ2 = length σ + 4)
    by (unfold σ2; rewrite length_app; done).
  assert (He2 : extends σ σ2) by apply extends_app, extends_refl.
  assert (HA1 : contents σ2 (length σ) = A1)
    by (unfold σ2; by rewrite (contents_suffix _ 0) by lia).
  assert (HA2 : contents σ2 (length σ + 1) = A2)
    by (unfold σ2; by rewrite (contents_suffix _ 1) by lia).
  assert (HB1 : contents σ2 (length σ + 2) = B1)
    by (unfold σ2; by rewrite (contents_suffix _ 2) by lia).
  assert (HB2 : contents σ2 (length σ + 3) = B2)
    by (unfold σ2; by rewrite (contents_suffix _ 3) by lia).
  clearbody σ2.
  (* the four recursive calls *)
  pose proof (IH (length σ) (length σ + 2) σ2) as H11.
  rewrite HA1, HB1 in H11. specialize (H11 ltac:(lia) ltac:(lia)).
  destruct (Pure.binary_mult_fuel fuel A1 B1) as [l11| |];
    cbn [refines] in H11; [|by rewrite H11..].
  destruct H11 as (σ3 & r11 & -> & He3 & Hr11 & Hc11).
  cbn [mbind outcome_bind].
  pose proof (extends_length _ _ He3) as Hl3.
  pose proof (IH (length σ) (length σ + 3) σ3) as H12.
  rewrite !(extends_contents _ _ _ He3), HA1, HB2 in H12 by lia.
  specialize (H12 ltac:(lia) ltac:(lia)).
  destruct (Pure.binary_mult_fuel fuel A1 B2) as [l12| |];
    cbn [refines] in H12; [|by rewrite H12..].
  destruct H12 as (σ4 & r12 & -> & He4 & Hr12 & Hc12).
  cbn [mbind outcome_bind].
  pose proof (extends_length _ _ He4) as Hl4.
  pose proof (extends_trans _ _ _ He3 He4) as He24.
  pose proof (IH (length σ + 1) (length σ + 2) σ4) as H21.
  rewrite !(extends_contents _ _ _ He24), HA2, HB1 in H21 by lia.
  specialize (H21 ltac:(lia) ltac:(lia)).
  destruct (Pure.binary_mult_fuel fuel A2 B1) as [l21| |];
    cbn [refines] in H21; [|by rewrite H21..].
  destruct H21 as (σ5 & r21 & -> & He5 & Hr21 & Hc21).
  cbn [mbind outcome_bind].
  pose proof (extends_length _ _ He5) as Hl5.
  pose proof (extends_trans _ _ _ He24 He5) as He25.
  pose proof (IH (length σ + 1) (length σ + 3) σ5) as H22.
  rewrite !(extends_contents _ _ _ He25), HA2, HB2 in H22 by lia.
  specialize (H22 ltac:(lia) ltac:(lia)).
  destruct (Pure.binary_mult_fuel fuel A2 B2) as [l22| |];
    cbn [refines] in H22; [|by rewrite H22..].
  destruct H22 as (σ6 & r22 & -> & He6 & Hr22 & Hc22).
  cbn [mbind outcome_bind].
  pose proof (extends_length _ _ He6) as Hl6.
  assert (Hc11' : contents σ6 r11 = l11).
  { rewrite (extends_contents σ3 σ6); [done| |lia].
    by eapply extends_trans, extends_trans. }
  assert (Hc12' : contents σ6 r12 = l12).
  { rewrite (extends_contents σ4 σ6); [done| |lia].
    by eapply extends_trans. }
  assert (Hc21' : contents σ6 r21 = l21).
  { rewrite (extends_contents σ5 σ6); [done|done|lia]. }
  assert (He : extends σ σ6).
  { eapply extends_trans; [exact He2|]. by eapply extends_trans. }
  clear IH He3 He4 He5 He6 He24 He25 Hc11 Hc12 Hc21 HA1 HA2 HB1 HB2 He2.
  (* the combination step *)
  destruct (binary_add_step r12 r21 σ6) as (σ7 & -> & Hl7 & Hc7 & Hf7 & He7);
    [lia..|].
  rewrite binary_add_spec. cbn [mbind outcome_bind].
  destruct (append_n_times_step r11 len σ7) as (σ8 & -> & Hl8 & Hc8 & Hf8 & He8);
    [lia|].
  destruct (append_n_times_step (length σ6) (len / 2) σ8)
    as (σ9 & -> & Hl9 & Hc9 & Hf9 & He9); [lia|].
  destruct (binary_add_step r11 (length σ6) σ9)
    as (σ10 & -> & Hl10 & Hc10 & Hf10 & He10); [lia..|].
  rewrite binary_add_spec. cbn [mbind outcome_bind].
  destruct (binary_add_step (length σ9) r22 σ10)
    as (σ11 & -> & Hl11 & Hc11 & Hf11 & He11); [lia..|].
  rewrite binary_add_spec. cbn [mbind outcome_bind].
  destruct (length_modifier_step (length σ10) len σ11)
    as (σ12 & r & Hr & -> & Hl12 & Hc12 & He12); [lia|].
  cbn [mbind outcome_bind].
  (* the lists held by the objects at each step *)
  rewrite Hc12', Hc21' in Hc7.
  rewrite Hf7, Hc11' in Hc8 by lia.
  rewrite Hf8, Hc7 in Hc9 by lia.
  rewrite Hf9, Hc8, Hc9 in Hc10 by lia.
  rewrite Hc10, Hf10, Hf9, Hf8, Hf7, Hc22 in Hc11 by lia.
  rewrite Hc11 in Hr.
  rewrite !append_n_times_replicate, Hr. cbn [refines].
  exists σ12, (length σ10). split; [done|].
  split; [|split; [lia|done]].
  apply He12; [|lia]. apply He11; [|lia..]. apply He10; [|lia..].
  apply He9; [|lia]. apply He8; [|lia]. apply He7; [done|lia..].
Qed.

End store_facts.

(** * The properties of the specification *)

Ltac solve_bit_seq :=
  repeat first [ apply Forall_nil_2 | apply Forall_cons_2 | by left | by right ].

(** C1, at the odd bit lengths 3 and 5: for [a = 3] and [b = 4] converted
    to 3-bit sequences (the docstring example), [binary_mult] returns a
    sequence whose value is 6, not [a * b = 12]; for [a = 5] and [b = 9]
    converted to 5-bit sequences it returns a sequence whose value is 25,
    not [a * b = 45].  (On length 1 and on every even length the product
    is exact: [binary_mult_even_correct].) *)
Theorem binary_mult_wrong_on_odd_lengths :
  (binary_mult (int_to_bits 3 3) (int_to_bits 4 3)
     = Ok [0; 0; 0; 1; 1; 0]%Z /\
   bits_to_int [0; 0; 0; 1; 1; 0]%Z = 6%Z /\ (6 <> 3 * 4)%Z) /\
  (binary_mult (int_to_bits 5 5) (int_to_bits 9 5)
     = Ok [0; 0; 0; 0; 0; 1; 1; 0; 0; 1]%Z /\
   bits_to_int [0; 0; 0; 0; 0; 1; 1; 0; 0; 1]%Z = 25%Z /\ (25 <> 5 * 9)%Z).
Proof.
  split; (split; [by vm_compute|]; split; [by vm_compute|lia]).
Qed.

(** C2: the call [binary_mult([0,1,1],[1,0,0])] returns [[0,0,0,1,1,0]],
    the value 6 in 6 bits, and not the sequence [[0,0,1,1,0,0]] of the
    docstring. *)
Theorem binary_mult_docstring_example :
  binary_mult [0; 1; 1]%Z [1; 0; 0]%Z = Ok [0; 0; 0; 1; 1; 0]%Z /\
  binary_mult [0; 1; 1]%Z [1; 0; 0]%Z <> Ok [0; 0; 1; 1; 0; 0]%Z.
Proof. split; [by vm_compute|]. by vm_compute. Qed.

(** C3 fails on the base case: [binary_mult([1],[1])] returns the
    one-element list [[1]], whose length is not [2 * 1]. *)
Lemma binary_mult_base_width :
  exists r, binary_mult [1%Z] [1%Z] = Ok r /\ length r <> 2 * length [1%Z].
Proof. exists [1%Z]. split; [by vm_compute|]. simpl. lia. Qed.

(** C3, amended: for equal-length [A], [B] of length [n >= 1] the call
    returns a list, of length exactly [2 * n] when [n >= 2] and of length
    1 in the base case [n = 1]. *)
Theorem binary_mult_width A B :
  length A = length B -> 1 <= length A ->
  exists r, binary_mult A B = Ok r /\
            length r = if length A =? 1 then 1 else 2 * length A.
Proof.
  intros Hl Hn.
  destruct (binary_mult_fuel_total (length A `max` length B) A B)
    as (r & Hr & Hlen); [done|lia|].
  exists r. split; [done|]. rewrite Hlen.
  destruct (1 <? length A) eqn:E1, (length A =? 1) eqn:E2; try done.
  - apply Nat.ltb_lt in E1. apply Nat.eqb_eq in E2. lia.
  - apply Nat.ltb_ge in E1. apply Nat.eqb_neq in E2. lia.
Qed.

Lemma binary_mult_width_witness :
  exists r, binary_mult [0; 1; 1]%Z [1; 0; 0]%Z = Ok r /\ length r = 6.
Proof.
  apply (binary_mult_width [0; 1; 1]%Z [1; 0; 0]%Z); [reflexivity|simpl; lia].
Defined.

(** C4 fails: [binary_mult([1],[1,1])], whose arguments differ in length,
    raises nothing and returns [[1]]. *)
Lemma binary_mult_unequal_lengths_return :
  length [1%Z] <> length [1%Z; 1%Z] /\
  binary_mult [1%Z] [1%Z; 1%Z] = Ok [1%Z].
Proof. split; [simpl; lia|by vm_compute]. Qed.

(** C4, amended: [binary_mult] makes no check of its precondition.  A call
    fails, with the [IndexError] of the indexing [A[0]] or [B[0]] of the
    base case, exactly when [A] is empty, or [A] has one element and [B]
    is empty; every other call, whatever the two lengths, returns a
    list. *)
Theorem binary_mult_failure_cases A B :
  if fails_fast A B
  then binary_mult A B = IndexError
  else exists r, binary_mult A B = Ok r.
Proof.
  unfold fails_fast.
  destruct (length A =? 0) eqn:E0; cbn [orb].
  { apply Nat.eqb_eq in E0. unfold binary_mult.
    rewrite binary_mult_fuel_base by lia. by destruct A. }
  apply Nat.eqb_neq in E0.
  destruct (length A =? 1) eqn:E1; cbn [andb].
  - apply Nat.eqb_eq in E1. destruct (length B =? 0) eqn:E2.
    + apply Nat.eqb_eq in E2. unfold binary_mult.
      rewrite binary_mult_fuel_base by lia. destruct B; [|done].
      by destruct A.
    + apply Nat.eqb_neq in E2.
      destruct (binary_mult_fuel_total (length A `max` length B) A B)
        as (r & Hr & _); [done|lia|]. by exists r.
  - apply Nat.eqb_neq in E1.
    destruct (binary_mult_fuel_total (length A `max` length B) A B)
      as (r & Hr & _); [done|lia|]. by exists r.
Qed.

(** On contents, that is for two distinct list objects: [binary_add] of
    bit sequences [X], [Y], of equal or unequal length, returns a list
    whose value is the value of [X] plus the value of [Y]. *)
Lemma binary_add_correct X Y :
  bit_seq X -> bit_seq Y ->
  exists X' Y' r,
    binary_add X Y = Ok (X', Y', r) /\
    bits_to_int r = (bits_to_int X + bits_to_int Y)%Z.
Proof.
  intros HX HY. rewrite binary_add_spec. eexists _, _, _. split; [done|].
  by apply add_result_value.
Qed.



(** On contents, that is for two distinct list objects: after
    [pad_same_length(X, Y)] the two lists have the same length, each is
    its former content with zero bits prepended (the shorter one up to
    the common length), and the common length is even unless it is 1. *)
Lemma pad_same_length_padding X Y :
  let X' := (pad_same_length X Y).1 in
  let Y' := (pad_same_length X Y).2 in
  length X' = length Y' /\
  X' = replicate (length X' - length X) 0%Z ++ X /\
  Y' = replicate (length Y' - length Y) 0%Z ++ Y /\
  length X `max` length Y <= length X' <= S (length X `max` length Y) /\
  even_or_one (length X').
Proof.
  intros X' Y'. unfold X', Y'. rewrite pad_same_length_spec. cbn [fst snd].
  set (L := pad_len (length X) (length Y)).
  pose proof (pad_len_ge_l (length X) (length Y)).
  pose proof (pad_len_ge_r (length X) (length Y)).
  rewrite !length_zero_extend by done.
  split; [done|]. split; [done|]. split; [done|]. split.
  - unfold L, pad_len in *.
    destruct (evenup_cases (length X `max` length Y)) as [[-> _]|(-> & _)]; lia.
  - apply evenup_even_or_one.
Qed.

(** C9: when [X] and [Y] already have the same length, and that length is
    even or 1, [pad_same_length(X, Y)] leaves both unchanged. *)
Theorem pad_same_length_noop X Y :
  length X = length Y -> even_or_one (length X) ->
  pad_same_length X Y = (X, Y).
Proof.
  intros Hl He. rewrite pad_same_length_spec. unfold pad_len, zero_extend.
  rewrite <- Hl, Nat.max_id, evenup_fixed, Nat.sub_diag by done. done.
Qed.

Lemma pad_same_length_noop_witness :
  pad_same_length [1; 0]%Z [0; 1]%Z = ([1; 0]%Z, [0; 1]%Z).
Proof.
  apply (pad_same_length_noop [1; 0]%Z [0; 1]%Z); [reflexivity|by left].
Defined.

Section store_claims.
Import Store.

(** C7: for lists [A], [B] of equal length [n >= 1], held by any two
    objects of the store (possibly one and the same), the call
    [binary_mult(A, B)] returns and leaves both objects, and every other
    object that existed before the call, with the content they had. *)
Theorem binary_mult_preserves_arguments (σ : store) (a b : ref) :
  a < length σ -> b < length σ ->
  length (contents σ a) = length (contents σ b) ->
  1 <= length (contents σ a) ->
  exists σ' r,
    binary_mult a b σ = Ok (σ', r) /\
    contents σ' a = contents σ a /\
    contents σ' b = contents σ b /\
    extends σ σ'.
Proof.
  intros Ha Hb Hl Hn. unfold binary_mult.
  pose proof (binary_mult_fuel_refines
                (length (contents σ a) `max` length (contents σ b))
                a b σ Ha Hb) as Href.
  destruct (binary_mult_fuel_total
              (length (contents σ a) `max` length (contents σ b))
              (contents σ a) (contents σ b)) as (l & Hr & _); [done|lia|].
  rewrite Hr in Href. destruct Href as (σ' & r & Hs & He & _ & _).
  exists σ', r. split; [done|].
  split; [by apply extends_contents|]. split; [by apply extends_contents|].
  done.
Qed.

Lemma binary_mult_preserves_arguments_witness :
  exists σ' r,
    binary_mult 0 1 [[0; 1; 1]%Z; [1; 0; 0]%Z] = Ok (σ', r) /\
    contents σ' 0 = [0; 1; 1]%Z /\
    contents σ' 1 = [1; 0; 0]%Z /\
    extends [[0; 1; 1]%Z; [1; 0; 0]%Z] σ'.
Proof.
  apply (binary_mult_preserves_arguments [[0; 1; 1]%Z; [1; 0; 0]%Z] 0 1);
    [simpl; lia|simpl; lia|reflexivity|simpl; lia].
Defined.

(** C5 fails when [X] and [Y] are one and the same object:
    [binary_add(L, L)] with [L = [1,0]], of value 2, returns [[1,0]], of
    value 2 and not 4. *)
Lemma binary_add_same_object_sum :
  exists σ' r,
    binary_add 0 0 [[1; 0]%Z] = Ok (σ', r) /\
    contents σ' r = [1; 0]%Z /\
    bits_to_int (contents σ' r)
      <> (bits_to_int [1; 0]%Z + bits_to_int [1; 0]%Z)%Z.
Proof. eexists _, _. split; [reflexivity|]. split; [reflexivity|]. by vm_compute. Qed.

(** C5, amended: for all bit sequences [X], [Y], of equal or unequal
    length, held by two distinct list objects, [binary_add(X, Y)] returns
    a list whose value is the value [X] had before the call plus the
    value [Y] had. *)
Theorem binary_add_correct_distinct (σ : store) (x y : ref) :
  x <> y -> x < length σ -> y < length σ ->
  bit_seq (contents σ x) -> bit_seq (contents σ y) ->
  exists σ' r,
    binary_add x y σ = Ok (σ', r) /\
    bits_to_int (contents σ' r)
      = (bits_to_int (contents σ x) + bits_to_int (contents σ y))%Z.
Proof.
  intros Hxy Hx Hy HX HY.
  destruct (binary_add_step x y σ Hxy Hx Hy) as (σ' & E & _ & Hc & _).
  exists σ', (length σ). split; [done|]. rewrite Hc.
  by apply add_result_value.
Qed.

Lemma binary_add_correct_distinct_witness :
  exists σ' r,
    binary_add 0 1 [[1; 0]%Z; [1%Z]] = Ok (σ', r) /\
    bits_to_int (contents σ' r) = (bits_to_int [1; 0]%Z + bits_to_int [1%Z])%Z.
Proof.
  apply (binary_add_correct_distinct [[1; 0]%Z; [1%Z]] 0 1);
    [simpl; lia|simpl; lia|simpl; lia|solve_bit_seq..].
Defined.

(** C8 fails when [X] and [Y] are one and the same object:
    [pad_same_length(L, L)] with [L = [1,1,1]] inserts two zeros into
    [L], whose length becomes 5, odd and other than 1. *)
Lemma pad_same_length_same_object_odd :
  contents (pad_same_length 0 0 [[1; 1; 1]%Z]) 0 = [0; 0; 1; 1; 1]%Z /\
  ~ even_or_one (length (contents (pad_same_length 0 0 [[1; 1; 1]%Z]) 0)).
Proof.
  split; [reflexivity|]. vm_compute. intros [H|H]; discriminate H.
Qed.

(** C8, amended: for all lists [X], [Y] held by two distinct list objects,
    after [pad_same_length(X, Y)] the two have the same length, each is
    its former content with zero bits prepended (the shorter one up to
    the common length), and the common length is even unless it is 1. *)
Theorem pad_same_length_padding_distinct (σ : store) (x y : ref) :
  x <> y -> x < length σ -> y < length σ ->
  let X := contents σ x in
  let Y := contents σ y in
  let X' := contents (pad_same_length x y σ) x in
  let Y' := contents (pad_same_length x y σ) y in
  length X' = length Y' /\
  X' = replicate (length X' - length X) 0%Z ++ X /\
  Y' = replicate (length Y' - length Y) 0%Z ++ Y /\
  length X `max` length Y <= length X' <= S (length X `max` length Y) /\
  even_or_one (length X').
Proof.
  intros Hxy Hx Hy X Y X' Y'. unfold X', Y'.
  destruct (pad_same_length_step x y σ Hxy Hx Hy) as (_ & -> & -> & _).
  apply pad_same_length_padding.
Qed.

Lemma pad_same_length_padding_distinct_witness :
  length [0; 1; 1; 1]%Z = length [0; 0; 0; 1]%Z /\
  [0; 1; 1; 1]%Z = replicate (4 - 3) 0%Z ++ [1; 1; 1]%Z /\
  [0; 0; 0; 1]%Z = replicate (4 - 1) 0%Z ++ [1%Z] /\
  3 <= 4 <= 4 /\
  even_or_one 4.
Proof.
  apply (pad_same_length_padding_distinct [[1; 1; 1]%Z; [1%Z]] 0 1);
    simpl; lia.
Defined.

(** C10 fails when [X] and [Y] are one and the same object: in
    [binary_add(L, L)] with [L = [1,0]] the two reversals both act on [L]
    and cancel, so [L] ends in its original order [[1,0]] and not
    reversed. *)
Lemma binary_add_same_object_not_reversed :
  exists σ' r,
    binary_add 0 0 [[1; 0]%Z] = Ok (σ', r) /\
    contents σ' 0 = [1; 0]%Z /\
    contents σ' 0 <> reverse (zero_extend (pad_len 2 2) [1; 0]%Z).
Proof. eexists _, _. split; [reflexivity|]. split; [reflexivity|]. by vm_compute. Qed.

(** C10, amended: [binary_add(X, Y)], on two distinct list objects,
    returns a new object and leaves in [X] and in [Y] their contents
    zero-padded to the common length and reversed; the new object holds
    the list returned, which for bit sequences denotes the sum most
    significant bit first. *)
Theorem binary_add_mutates_arguments (σ : store) (x y : ref) :
  x <> y -> x < length σ -> y < length σ ->
  let L := pad_len (length (contents σ x)) (length (contents σ y)) in
  exists σ',
    binary_add x y σ = Ok (σ', length σ) /\
    contents σ' x = reverse (zero_extend L (contents σ x)) /\
    contents σ' y = reverse (zero_extend L (contents σ y)) /\
    contents σ' (length σ) = add_result (contents σ x) (contents σ y) /\
    (bit_seq (contents σ x) -> bit_seq (contents σ y) ->
     bits_to_int (contents σ' (length σ)) =
       (bits_to_int (contents σ x) + bits_to_int (contents σ y))%Z).
Proof.
  intros Hxy Hx Hy L.
  rewrite binary_add_store, binary_add_spec by done.
  cbn [mbind outcome_bind]. eexists. split; [done|].
  rewrite !contents_app_l by by rewrite !length_update.
  split; [by rewrite contents_update_ne, contents_update_eq|].
  split; [by rewrite contents_update_eq by by rewrite length_update|].
  rewrite (contents_alloc_at _ _ (length σ)) by by rewrite !length_update.
  split; [done|]. intros HX HY. by apply add_result_value.
Qed.

Lemma binary_add_mutates_arguments_witness :
  exists σ',
    binary_add 0 1 [[1; 0]%Z; [1%Z]] = Ok (σ', 2) /\
    contents σ' 0 = [0; 1]%Z /\
    contents σ' 1 = [1; 0]%Z /\
    contents σ' 2 = [1; 1]%Z /\
    (bit_seq [1; 0]%Z -> bit_seq [1%Z] ->
     bits_to_int (contents σ' 2) = (bits_to_int [1; 0]%Z + bits_to_int [1%Z])%Z).
Proof.
  apply (binary_add_mutates_arguments [[1; 0]%Z; [1%Z]] 0 1);
    simpl; lia.
Defined.

(** When both arguments are one and the same object, the two insertions of
    [pad_same_length] and the two reversals of [binary_add] all act on
    that object (at every call site of the source the two arguments are
    distinct objects). *)
Remark pad_same_length_same_object :
  pad_same_length 0 0 [[1; 1; 1]%Z] = [[0; 0; 1; 1; 1]%Z].
Proof. reflexivity. Qed.

Remark binary_add_same_object :
  binary_add 0 0 [[1; 0]%Z] = Ok ([[1; 0]%Z; [1; 0]%Z], 1).
Proof. reflexivity. Qed.

End store_claims.

(** * Further properties of the routines *)

(** ** Fitting to a width *)

Lemma pow2_pos n : (0 < 2 ^ Z.of_nat n)%Z.
Proof. apply Z.pow_pos_nonneg; lia. Qed.

Lemma bits_to_int_drop_mod m X :
  bit_seq X -> m <= length X ->
  bits_to_int (drop (length X - m) X) = (bits_to_int X mod 2 ^ Z.of_nat m)%Z.
Proof.
  intros HX Hm.
  rewrite (bits_to_int_split (length X - m) X).
  replace (length X - (length X - m)) with m by lia.
  pose proof (bits_to_int_bound (drop (length X - m) X)
                (bit_seq_drop _ _ HX)) as Hb.
  rewrite length_drop in Hb.
  replace (length X - (length X - m)) with m in Hb by lia.
  rewrite Z.add_comm, Z.mod_add by (pose proof (pow2_pos m); lia).
  by rewrite Z.mod_small.
Qed.

Lemma length_modifier_mod X len r :
  bit_seq X -> length_modifier X len = Ok r ->
  bit_seq r /\
  bits_to_int r = (bits_to_int X mod 2 ^ Z.of_nat (2 * len))%Z.
Proof.
  intros HX. rewrite length_modifier_spec. intros [= <-].
  destruct (length X <? len * 2) eqn:E.
  - apply Nat.ltb_lt in E. split; [by apply bit_seq_zero_extend|].
    rewrite bits_to_int_zero_extend, Z.mod_small; [done|].
    pose proof (bits_to_int_bound X HX) as Hb.
    assert (2 ^ Z.of_nat (length X) <= 2 ^ Z.of_nat (2 * len))%Z
      by (apply Z.pow_le_mono_r; lia).
    lia.
  - apply Nat.ltb_ge in E. split; [by apply bit_seq_drop|].
    rewrite Nat.mul_comm. apply bits_to_int_drop_mod; [done|lia].
Qed.

(** ** Addition: symmetry and the extra bit *)

Lemma add_lsb_comm Xs : forall Ys carry,
  add_lsb Xs Ys carry = add_lsb Ys Xs carry.
Proof.
  induction Xs as [|x Xs IH]; intros [|y Ys] carry; cbn [add_lsb]; try done.
  rewrite (Z.add_comm y x), (IH Ys). done.
Qed.

Lemma add_result_comm X Y : add_result X Y = add_result Y X.
Proof.
  unfold add_result, pad_len.
  rewrite (Nat.max_comm (length Y) (length X)).
  by rewrite add_lsb_comm.
Qed.

Lemma add_result_carry X Y :
  bit_seq X -> bit_seq Y ->
  length (add_result X Y) =
    if (2 ^ Z.of_nat (pad_len (length X) (length Y))
          <=? bits_to_int X + bits_to_int Y)%Z
    then S (pad_len (length X) (length Y))
    else pad_len (length X) (length Y).
Proof.
  intros HX HY. unfold add_result. set (L := pad_len (length X) (length Y)).
  pose proof (add_lsb_value (reverse (zero_extend L X))
                (reverse (zero_extend L Y)) 0%Z) as Hv.
  pose proof (add_lsb_length (reverse (zero_extend L X))
                (reverse (zero_extend L Y)) 0%Z) as Hl.
  rewrite !length_reverse, !length_zero_extend in Hl, Hv
    by (apply pad_len_ge_l || apply pad_len_ge_r).
  rewrite <- !bits_to_int_lsb, !bits_to_int_zero_extend in Hv.
  destruct (add_lsb _ _ _) as [c R]. cbn [fst snd] in *.
  destruct Hv as (Hc & HR & Hv);
    [done|by apply bit_seq_reverse, bit_seq_zero_extend..|by left|].
  specialize (Hl eq_refl).
  pose proof (lsb_value_bound R HR) as Hb. rewrite Hl in Hb.
  rewrite length_reverse.
  destruct Hc as [-> | ->]; cbn [Z.eqb Pos.eqb].
  - destruct (Z.leb_spec (2 ^ Z.of_nat L) (bits_to_int X + bits_to_int Y));
      [lia|done].
  - rewrite length_app, Hl. cbn [length].
    destruct (Z.leb_spec (2 ^ Z.of_nat L) (bits_to_int X + bits_to_int Y));
      lia.
Qed.

(** ** Bit sequences of one length are determined by their value *)

Lemma lsb_value_inj X : forall Y,
  bit_seq X -> bit_seq Y -> length X = length Y ->
  lsb_value X = lsb_value Y -> X = Y.
Proof.
  induction X as [|x X IH]; intros [|y Y] HX HY Hl Hv; try done.
  apply Forall_cons in HX as [Hx HX]. apply Forall_cons in HY as [Hy HY].
  simpl in Hl, Hv.
  assert (x = y) by (destruct Hx as [-> | ->], Hy as [-> | ->]; lia).
  subst y. f_equal. apply IH; [done|done|lia|lia].
Qed.

Lemma bits_to_int_inj X Y :
  bit_seq X -> bit_seq Y -> length X = length Y ->
  bits_to_int X = bits_to_int Y -> X = Y.
Proof.
  intros HX HY Hl Hv. rewrite !bits_to_int_lsb in Hv.
  apply lsb_value_inj in Hv;
    [|by apply bit_seq_reverse..|by rewrite !length_reverse].
  by rewrite <- (reverse_involutive X), Hv, reverse_involutive.
Qed.

(** ** What [binary_mult] computes on any length *)

Lemma combine_bit_seq len P11 P12 P21 P22 r :
  bit_seq P11 -> bit_seq P12 -> bit_seq P21 -> bit_seq P22 ->
  combine len P11 P12 P21 P22 = Ok r -> bit_seq r.
Proof.
  intros H11 H12 H21 H22. rewrite combine_spec. intros Hr.
  destruct (combine_value len P11 P12 P21 P22) as [Hb _]; [done..|].
  by destruct (length_modifier_mod _ _ _ Hb Hr).
Qed.

Lemma binary_mult_fuel_bit_seq fuel : forall A B r,
  bit_seq A -> bit_seq B ->
  binary_mult_fuel fuel A B = Ok r -> bit_seq r.
Proof.
  induction fuel as [|fuel IH]; intros A B r HA HB Hr.
  - destruct (Nat.le_gt_cases (length A) 1) as [H|H].
    + rewrite binary_mult_fuel_base in Hr by done.
      destruct A as [|a ?]; [done|]. destruct B as [|b ?]; [done|].
      injection Hr as <-.
      apply Forall_cons in HA as [Ha _]. apply Forall_cons in HB as [Hb _].
      apply Forall_singleton.
      destruct Ha as [-> | ->], Hb as [-> | ->]; by (left + right).
    + simpl in Hr.
      destruct (1 <? length A) eqn:E; [done|apply Nat.ltb_ge in E; lia].
  - destruct (Nat.le_gt_cases (length A) 1) as [H|H].
    + rewrite binary_mult_fuel_base in Hr by done.
      destruct A as [|a ?]; [done|]. destruct B as [|b ?]; [done|].
      injection Hr as <-.
      apply Forall_cons in HA as [Ha _]. apply Forall_cons in HB as [Hb _].
      apply Forall_singleton.
      destruct Ha as [-> | ->], Hb as [-> | ->]; by (left + right).
    + rewrite binary_mult_fuel_rec, split_pad_spec in Hr by lia.
      set (A1 := zero_extend _ (take _ A)) in Hr.
      set (A2 := zero_extend _ (drop _ A)) in Hr.
      set (B1 := zero_extend _ (take _ B)) in Hr.
      set (B2 := zero_extend _ (drop _ B)) in Hr.
      assert (bit_seq A1) by by apply bit_seq_zero_extend, bit_seq_take.
      assert (bit_seq A2) by by apply bit_seq_zero_extend, bit_seq_drop.
      assert (bit_seq B1) by by apply bit_seq_zero_extend, bit_seq_take.
      assert (bit_seq B2) by by apply bit_seq_zero_extend, bit_seq_drop.
      destruct (binary_mult_fuel fuel A1 B1) as [r11| |] eqn:E11; try done.
      destruct (binary_mult_fuel fuel A1 B2) as [r12| |] eqn:E12; try done.
      destruct (binary_mult_fuel fuel A2 B1) as [r21| |] eqn:E21; try done.
      destruct (binary_mult_fuel fuel A2 B2) as [r22| |] eqn:E22; try done.
      cbn [mbind outcome_bind] in Hr.
      eapply combine_bit_seq;
        [by apply (IH A1 B1)|by apply (IH A1 B2)|by apply (IH A2 B1)
        |by apply (IH A2 B2)|exact Hr].
Qed.

(** The value to which the combination step of [binary_mult] on length [n]
    puts the halves of [A] and [B] together. *)
Lemma binary_mult_fuel_value fuel A B :
  length A = length B -> 2 <= length A -> length A <= fuel ->
  bit_seq A -> bit_seq B ->
  exists r,
    binary_mult_fuel fuel A B = Ok r /\ bit_seq r /\
    length r = 2 * length A /\
    bits_to_int r = (halves_value A B mod 2 ^ Z.of_nat (2 * length A))%Z.
Proof.
  intros Hl Hn Hf HA HB. destruct fuel as [|fuel]; [lia|].
  destruct (binary_mult_fuel_total (S fuel) A B) as (r & Hr & Hlen);
    [lia|lia|].
  exists r. split; [done|].
  split; [by apply (binary_mult_fuel_bit_seq (S fuel) A B)|].
  split.
  { rewrite Hlen. destruct (1 <? length A) eqn:E;
      [done|apply Nat.ltb_ge in E; lia]. }
  rewrite binary_mult_fuel_rec, split_pad_spec, <- Hl in Hr by lia.
  destruct (len_halves_equal (length A)) as (E1 & E2 & E3); [lia|].
  rewrite E1, E2, E3 in Hr. clear E1 E2 E3.
  set (k := length A / 2) in *. set (h := evenup (length A - k)) in *.
  assert (Hh : length A - k <= h) by apply evenup_ge.
  assert (Hh' : h < length A) by (unfold h; apply evenup_half_lt; lia).
  pose proof (evenup_even_or_one (length A - k)) as Hhe. fold h in Hhe.
  assert (HlA1 : length (take k A) = k) by (rewrite length_take; lia).
  assert (HlB1 : length (take k B) = k) by (rewrite length_take; lia).
  assert (HlA2 : length (drop k A) = length A - k) by apply length_drop.
  assert (HlB2 : length (drop k B) = length A - k)
    by (rewrite length_drop; lia).
  set (A1 := zero_extend h (take k A)) in *.
  set (A2 := zero_extend h (drop k A)) in *.
  set (B1 := zero_extend h (take k B)) in *.
  set (B2 := zero_extend h (drop k B)) in *.
  assert (HA1 : length A1 = h) by (apply length_zero_extend; lia).
  assert (HA2 : length A2 = h) by (apply length_zero_extend; lia).
  assert (HB1 : length B1 = h) by (apply length_zero_extend; lia).
  assert (HB2 : length B2 = h) by (apply length_zero_extend; lia).
  assert (bit_seq A1) by by apply bit_seq_zero_extend, bit_seq_take.
  assert (bit_seq A2) by by apply bit_seq_zero_extend, bit_seq_drop.
  assert (bit_seq B1) by by apply bit_seq_zero_extend, bit_seq_take.
  assert (bit_seq B2) by by apply bit_seq_zero_extend, bit_seq_drop.
  destruct (binary_mult_fuel_even_correct fuel A1 B1)
    as (r11 & E11 & Hb11 & Hv11); [lia|lia|lia|by rewrite HA1|done|done|].
  destruct (binary_mult_fuel_even_correct fuel A1 B2)
    as (r12 & E12 & Hb12 & Hv12); [lia|lia|lia|by rewrite HA1|done|done|].
  destruct (binary_mult_fuel_even_correct fuel A2 B1)
    as (r21 & E21 & Hb21 & Hv21); [lia|lia|lia|by rewrite HA2|done|done|].
  destruct (binary_mult_fuel_even_correct fuel A2 B2)
    as (r22 & E22 & Hb22 & Hv22); [lia|lia|lia|by rewrite HA2|done|done|].
  rewrite E11, E12, E21, E22 in Hr. cbn [mbind outcome_bind] in Hr.
  rewrite combine_spec in Hr.
  destruct (combine_value (length A) r11 r12 r21 r22) as [Hcb Hcv]; [done..|].
  destruct (length_modifier_mod _ _ _ Hcb Hr) as [_ ->].
  rewrite Hcv, Hv11, Hv12, Hv21, Hv22.
  unfold A1, A2, B1, B2. rewrite !bits_to_int_zero_extend.
  unfold halves_value. rewrite <- Hl. done.
Qed.

(** ** Properties of the helper routines *)

(** X1: [pop_n_times(X, n)] returns [X] without its first [n] elements
    when [n <= len(X)], and raises [IndexError] (popping from an empty
    list) when [n > len(X)]. *)
Theorem pop_n_times_post X n :
  pop_n_times X n = if n <=? length X then Ok (drop n X) else IndexError.
Proof.
  destruct (n <=? length X) eqn:E.
  - apply Nat.leb_le in E. by apply pop_n_times_drop.
  - apply Nat.leb_gt in E. by apply pop_n_times_short.
Qed.

(** X2: [length_modifier(X, length)] never raises and leaves a list of
    exactly [2 * length] elements; on a bit sequence the result is a bit
    sequence whose value is the value of [X] modulo [2 ^ (2 * length)]:
    zero-extension keeps the value, truncation drops the overflow. *)
Theorem length_modifier_post X len :
  exists r,
    length_modifier X len = Ok r /\
    length r = 2 * len /\
    (bit_seq X ->
     bit_seq r /\
     bits_to_int r = (bits_to_int X mod 2 ^ Z.of_nat (2 * len))%Z).
Proof.
  destruct (length_modifier X len) as [r| |] eqn:E;
    try (rewrite length_modifier_spec in E; done).
  exists r. split; [done|]. split; [by eapply length_modifier_length|].
  intros HX. by apply (length_modifier_mod X len).
Qed.

(** X3: fitting is idempotent: [length_modifier] applied again, with the
    same [length], to the list it produced leaves that list as it is. *)
Theorem length_modifier_idempotent X len r :
  length_modifier X len = Ok r -> length_modifier r len = Ok r.
Proof.
  intros Hr. pose proof (length_modifier_length _ _ _ Hr) as Hl.
  rewrite length_modifier_spec.
  destruct (length r <? len * 2) eqn:E; [apply Nat.ltb_lt in E; lia|].
  replace (length r - len * 2) with 0 by lia. by rewrite drop_0.
Qed.

Lemma length_modifier_idempotent_witness :
  length_modifier [0; 0; 1; 1]%Z 1 = Ok [1; 1]%Z.
Proof.
  apply (length_modifier_idempotent [1; 0; 1; 1]%Z 1 [1; 1]%Z). reflexivity.
Defined.

(** X4: [pad_same_length(X, Y)] changes neither number: the padded [X] and
    [Y] have the values [X] and [Y] had. *)
Theorem pad_same_length_values X Y :
  bits_to_int (pad_same_length X Y).1 = bits_to_int X /\
  bits_to_int (pad_same_length X Y).2 = bits_to_int Y.
Proof.
  rewrite pad_same_length_spec. cbn [fst snd].
  by rewrite !bits_to_int_zero_extend.
Qed.

(** On contents, that is for two distinct list objects, padding is
    idempotent: [pad_same_length] applied to the two lists it produced
    leaves them as they are. *)
Lemma pad_same_length_idempotent X Y :
  pad_same_length (pad_same_length X Y).1 (pad_same_length X Y).2
    = pad_same_length X Y.
Proof.
  rewrite (pad_same_length_spec X Y). cbn [fst snd].
  set (L := pad_len (length X) (length Y)).
  assert (HX : length (zero_extend L X) = L)
    by apply length_zero_extend, pad_len_ge_l.
  assert (HY : length (zero_extend L Y) = L)
    by apply length_zero_extend, pad_len_ge_r.
  rewrite pad_same_length_spec, HX, HY.
  assert (pad_len L L = L) as ->.
  { unfold pad_len. rewrite Nat.max_id. apply evenup_idem. }
  unfold zero_extend at 1 3. by rewrite HX, HY, Nat.sub_diag.
Qed.

(** X6: [binary_add(X, Y)] never raises, whatever the two lists (empty
    ones included): its reads of [Y[index]] and writes of [result[index]]
    stay in range.  It leaves [X] and [Y] at the common padded length
    [L], and the list it returns has [L] or [L + 1] elements. *)
Theorem binary_add_total X Y :
  exists X' Y' r,
    binary_add X Y = Ok (X', Y', r) /\
    length X' = pad_len (length X) (length Y) /\
    length Y' = pad_len (length X) (length Y) /\
    pad_len (length X) (length Y) <= length r
      <= S (pad_len (length X) (length Y)).
Proof.
  rewrite binary_add_spec. eexists _, _, _. split; [done|].
  rewrite !length_reverse, !length_zero_extend
    by (apply pad_len_ge_l || apply pad_len_ge_r).
  split; [done|]. split; [done|]. apply add_result_length.
Qed.

(** On contents, that is for two distinct list objects: on bit sequences
    [binary_add] returns a bit sequence, and it has the extra leading bit
    exactly when the sum does not fit the padded length [L], that is when
    [X + Y >= 2 ^ L]. *)
Lemma binary_add_extra_bit X Y :
  bit_seq X -> bit_seq Y ->
  exists X' Y' r,
    binary_add X Y = Ok (X', Y', r) /\
    bit_seq r /\
    length r =
      if (2 ^ Z.of_nat (pad_len (length X) (length Y))
            <=? bits_to_int X + bits_to_int Y)%Z
      then S (pad_len (length X) (length Y))
      else pad_len (length X) (length Y).
Proof.
  intros HX HY. rewrite binary_add_spec. eexists _, _, _. split; [done|].
  split; [by apply add_result_value|by apply add_result_carry].
Qed.

(** X8: [binary_add] is commutative: [binary_add(Y, X)] returns the same
    list as [binary_add(X, Y)] and leaves the two arguments with the same
    contents. *)
Theorem binary_add_comm X Y :
  exists X' Y' r,
    binary_add X Y = Ok (X', Y', r) /\ binary_add Y X = Ok (Y', X', r).
Proof.
  rewrite !binary_add_spec. eexists _, _, _. split; [done|].
  unfold pad_len. by rewrite (Nat.max_comm (length Y)), (add_result_comm Y).
Qed.

(** ** Properties of [binary_mult] *)

(** X9: on bit sequences of equal length [n >= 2], even or odd,
    [binary_mult] returns a bit sequence of [2 * n] bits whose value is
    [a1*b1 * 2^n + (a1*b2 + a2*b1) * 2^(n/2) + a2*b2] modulo [2^(2n)],
    where [a1], [a2], [b1], [b2] are the values of the halves [A[:n/2]],
    [A[n/2:]], [B[:n/2]], [B[n/2:]]. *)
Theorem binary_mult_value A B :
  length A = length B -> 2 <= length A ->
  bit_seq A -> bit_seq B ->
  exists r,
    binary_mult A B = Ok r /\ bit_seq r /\
    length r = 2 * length A /\
    bits_to_int r = (halves_value A B mod 2 ^ Z.of_nat (2 * length A))%Z.
Proof.
  intros Hl Hn HA HB. unfold binary_mult.
  apply binary_mult_fuel_value; [done|done|lia|done|done].
Qed.

Lemma binary_mult_value_witness :
  exists r,
    binary_mult [0; 1; 1]%Z [1; 0; 0]%Z = Ok r /\ bit_seq r /\
    length r = 6 /\
    bits_to_int r = 6%Z.
Proof.
  apply (binary_mult_value [0; 1; 1]%Z [1; 0; 0]%Z);
    [reflexivity|simpl; lia|solve_bit_seq..].
Defined.

(** X10: on bit sequences of equal length [n >= 1], with [n] even or 1,
    [binary_mult] returns a bit sequence whose value is the product of
    the values of [A] and [B]. *)
Theorem binary_mult_exact_on_even_lengths A B :
  length A = length B -> 1 <= length A -> even_or_one (length A) ->
  bit_seq A -> bit_seq B ->
  exists r,
    binary_mult A B = Ok r /\ bit_seq r /\
    bits_to_int r = (bits_to_int A * bits_to_int B)%Z.
Proof.
  intros Hl Hn He HA HB. unfold binary_mult.
  apply binary_mult_fuel_even_correct; [done|done|lia|done|done|done].
Qed.

Lemma binary_mult_exact_on_even_lengths_witness :
  exists r,
    binary_mult [1; 0; 1; 1]%Z [1; 1; 0; 1]%Z = Ok r /\ bit_seq r /\
    bits_to_int r = 143%Z.
Proof.
  apply (binary_mult_exact_on_even_lengths [1; 0; 1; 1]%Z [1; 1; 0; 1]%Z);
    [reflexivity|simpl; lia|by left|solve_bit_seq..].
Defined.

(** X11: [binary_mult] is commutative on bit sequences of equal length
    [n >= 1], odd lengths included: [binary_mult(B, A)] returns the same
    list as [binary_mult(A, B)]. *)
Theorem binary_mult_comm A B :
  length A = length B -> 1 <= length A ->
  bit_seq A -> bit_seq B ->
  binary_mult A B = binary_mult B A.
Proof.
  intros Hl Hn HA HB.
  destruct (Nat.le_gt_cases (length A) 1) as [H1|H1].
  - unfold binary_mult. rewrite !binary_mult_fuel_base by lia.
    destruct A as [|a ?]; [simpl in Hn; lia|].
    destruct B as [|b ?]; [simpl in Hl; lia|].
    by rewrite Z.mul_comm.
  - unfold binary_mult. rewrite (Nat.max_comm (length B)).
    destruct (binary_mult_fuel_value (length A `max` length B) A B)
      as (r & -> & Hb & Hlen & Hv); [done|lia|lia|done|done|].
    destruct (binary_mult_fuel_value (length A `max` length B) B A)
      as (r' & -> & Hb' & Hlen' & Hv'); [done|lia|lia|done|done|].
    f_equal. apply bits_to_int_inj; [done|done|lia|].
    rewrite Hv, Hv', <- Hl. f_equal.
    unfold halves_value. rewrite <- Hl. ring.
Qed.

Lemma binary_mult_comm_witness :
  binary_mult [0; 1; 1]%Z [1; 0; 0]%Z = binary_mult [1; 0; 0]%Z [0; 1; 1]%Z.
Proof.
  apply (binary_mult_comm [0; 1; 1]%Z [1; 0; 0]%Z);
    [reflexivity|simpl; lia|solve_bit_seq..].
Defined.

(** X12: when [A] has at least two elements, [binary_mult(A, B)] returns
    a list of exactly [2 * len(A)] elements whatever the length of [B]
    (shorter, longer or empty), and that list is a bit sequence when [A]
    and [B] are. *)
Theorem binary_mult_width_any_B A B :
  2 <= length A ->
  exists r,
    binary_mult A B = Ok r /\ length r = 2 * length A /\
    (bit_seq A -> bit_seq B -> bit_seq r).
Proof.
  intros Hn. unfold binary_mult.
  destruct (binary_mult_fuel_total (length A `max` length B) A B)
    as (r & Hr & Hlen); [done|lia|].
  exists r. split; [done|]. split.
  - rewrite Hlen. destruct (1 <? length A) eqn:E;
      [done|apply Nat.ltb_ge in E; lia].
  - intros HA HB.
    by apply (binary_mult_fuel_bit_seq (length A `max` length B) A B).
Qed.

Lemma binary_mult_width_any_B_witness :
  exists r,
    binary_mult [1; 1]%Z [1; 0; 1; 1; 1]%Z = Ok r /\ length r = 4 /\
    (bit_seq [1; 1]%Z -> bit_seq [1; 0; 1; 1; 1]%Z -> bit_seq r).
Proof.
  apply (binary_mult_width_any_B [1; 1]%Z [1; 0; 1; 1; 1]%Z). simpl; lia.
Defined.

Section store_properties.
Import Store.

(** ** Properties of the routines as they act on the store *)

(** X13: [prepend_n_times(X, n)] changes the object [X] in place to [n]
    zeros followed by its former content, which denotes the same number;
    it creates no object and changes no other one. *)
Theorem prepend_n_times_in_place (σ : store) (x : ref) (n : nat) :
  x < length σ ->
  length (prepend_n_times x n σ) = length σ /\
  contents (prepend_n_times x n σ) x = replicate n 0%Z ++ contents σ x /\
  bits_to_int (contents (prepend_n_times x n σ) x)
    = bits_to_int (contents σ x) /\
  (forall z, z <> x ->
             contents (prepend_n_times x n σ) z = contents σ z).
Proof.
  intros Hx. rewrite prepend_n_times_store by done.
  rewrite length_update, contents_update_eq, prepend_n_times_replicate by done.
  split; [done|]. split; [done|]. split.
  - by rewrite bits_to_int_app, bits_to_int_replicate.
  - intros z Hz. by rewrite contents_update_ne.
Qed.

Lemma prepend_n_times_in_place_witness :
  length (prepend_n_times 0 2 [[1; 1]%Z; [1%Z]]) = 2 /\
  contents (prepend_n_times 0 2 [[1; 1]%Z; [1%Z]]) 0 = [0; 0; 1; 1]%Z /\
  bits_to_int (contents (prepend_n_times 0 2 [[1; 1]%Z; [1%Z]]) 0) = 3%Z /\
  (forall z, z <> 0 ->
     contents (prepend_n_times 0 2 [[1; 1]%Z; [1%Z]]) z
       = contents [[1; 1]%Z; [1%Z]] z).
Proof.
  apply (prepend_n_times_in_place [[1; 1]%Z; [1%Z]] 0 2). simpl; lia.
Defined.

(** X14: [append_n_times(X, n)] returns its own argument: the object [X],
    changed in place to its former content followed by [n] zeros, that is
    its value shifted left by [n] bits.  It creates one object, the local
    list [Y], and changes no other one. *)
Theorem append_n_times_shifts (σ : store) (x : ref) (n : nat) :
  x < length σ ->
  exists σ',
    append_n_times x n σ = (σ', x) /\
    length σ' = S (length σ) /\
    contents σ' x = contents σ x ++ replicate n 0%Z /\
    bits_to_int (contents σ' x)
      = (bits_to_int (contents σ x) * 2 ^ Z.of_nat n)%Z /\
    (forall z, z <> x -> z < length σ -> contents σ' z = contents σ z).
Proof.
  intros Hx.
  destruct (append_n_times_step x n σ Hx) as (σ' & E & Hl & Hc & Hf & _).
  exists σ'. split; [done|]. split; [done|]. split; [done|]. split; [|done].
  rewrite Hc, bits_to_int_app, bits_to_int_replicate, length_replicate. lia.
Qed.

Lemma append_n_times_shifts_witness :
  exists σ',
    append_n_times 0 2 [[1; 1]%Z; [1%Z]] = (σ', 0) /\
    length σ' = 3 /\
    contents σ' 0 = [1; 1; 0; 0]%Z /\
    bits_to_int (contents σ' 0) = 12%Z /\
    (forall z, z <> 0 -> z < 2 ->
       contents σ' z = contents [[1; 1]%Z; [1%Z]] z).
Proof.
  apply (append_n_times_shifts [[1; 1]%Z; [1%Z]] 0 2). simpl; lia.
Defined.

(** X15: [pad_same_length(X, Y)] on two distinct objects creates no
    object and changes only [X] and [Y], which it leaves zero-extended to
    the common length. *)
Theorem pad_same_length_frame (σ : store) (x y : ref) :
  x <> y -> x < length σ -> y < length σ ->
  let L := pad_len (length (contents σ x)) (length (contents σ y)) in
  length (pad_same_length x y σ) = length σ /\
  contents (pad_same_length x y σ) x = zero_extend L (contents σ x) /\
  contents (pad_same_length x y σ) y = zero_extend L (contents σ y) /\
  (forall z, z <> x -> z <> y ->
             contents (pad_same_length x y σ) z = contents σ z).
Proof.
  intros Hxy Hx Hy L.
  destruct (pad_same_length_step x y σ Hxy Hx Hy) as (Hl & HX & HY & Hf & _).
  rewrite pad_same_length_spec in HX, HY. done.
Qed.

Lemma pad_same_length_frame_witness :
  length (pad_same_length 0 2 [[1; 1; 1]%Z; [1%Z]; [1%Z]]) = 3 /\
  contents (pad_same_length 0 2 [[1; 1; 1]%Z; [1%Z]; [1%Z]]) 0
    = [0; 1; 1; 1]%Z /\
  contents (pad_same_length 0 2 [[1; 1; 1]%Z; [1%Z]; [1%Z]]) 2
    = [0; 0; 0; 1]%Z /\
  (forall z, z <> 0 -> z <> 2 ->
     contents (pad_same_length 0 2 [[1; 1; 1]%Z; [1%Z]; [1%Z]]) z
       = contents [[1; 1; 1]%Z; [1%Z]; [1%Z]] z).
Proof.
  apply (pad_same_length_frame [[1; 1; 1]%Z; [1%Z]; [1%Z]] 0 2); simpl; lia.
Defined.

(** X16: [binary_add(X, Y)] on two distinct objects creates exactly one
    object, the list it returns, and changes no object other than [X] and
    [Y]. *)
Theorem binary_add_frame (σ : store) (x y : ref) :
  x <> y -> x < length σ -> y < length σ ->
  exists σ',
    binary_add x y σ = Ok (σ', length σ) /\
    length σ' = S (length σ) /\
    (forall z, z <> x -> z <> y -> z < length σ ->
               contents σ' z = contents σ z).
Proof.
  intros Hxy Hx Hy.
  destruct (binary_add_step x y σ Hxy Hx Hy) as (σ' & E & Hl & _ & Hf & _).
  by exists σ'.
Qed.

Lemma binary_add_frame_witness :
  exists σ',
    binary_add 0 2 [[1; 1]%Z; [1; 0; 1]%Z; [1%Z]] = Ok (σ', 3) /\
    length σ' = 4 /\
    (forall z, z <> 0 -> z <> 2 -> z < 3 ->
       contents σ' z = contents [[1; 1]%Z; [1; 0; 1]%Z; [1%Z]] z).
Proof.
  apply (binary_add_frame [[1; 1]%Z; [1; 0; 1]%Z; [1%Z]] 0 2); simpl; lia.
Defined.

(** X17: [binary_mult(A, B)] on objects of the store behaves as it does on
    their contents: it raises when the computation on contents raises,
    and otherwise returns a newly created object, distinct from every
    object that existed before the call, which holds the list computed on
    contents, in a store where the earlier objects are unchanged. *)
Theorem binary_mult_fresh_result (σ : store) (a b : ref) :
  a < length σ -> b < length σ ->
  match Pure.binary_mult (contents σ a) (contents σ b) with
  | Ok l =>
      exists σ' r,
        binary_mult a b σ = Ok (σ', r) /\
        length σ <= r < length σ' /\
        contents σ' r = l /\
        extends σ σ'
  | IndexError => binary_mult a b σ = IndexError
  | OutOfFuel => False
  end.
Proof.
  intros Ha Hb. unfold binary_mult, Pure.binary_mult.
  pose proof (binary_mult_fuel_refines
                (length (contents σ a) `max` length (contents σ b))
                a b σ Ha Hb) as Href.
  destruct (Pure.binary_mult_fuel _ (contents σ a) (contents σ b))
    as [l| |] eqn:E; cbn [refines] in Href.
  - destruct Href as (σ' & r & Hs & He & Hr & Hc). by exists σ', r.
  - done.
  - destruct (Nat.le_gt_cases (length (contents σ a)) 1) as [H|H].
    + rewrite binary_mult_fuel_base in E by done.
      by destruct (contents σ a), (contents σ b).
    + destruct (binary_mult_fuel_total
                  (length (contents σ a) `max` length (contents σ b))
                  (contents σ a) (contents σ b)) as (r & Hr & _);
        [done|lia|]. congruence.
Qed.

Lemma binary_mult_fresh_result_witness :
  exists σ' r,
    binary_mult 0 0 [[1; 1]%Z] = Ok (σ', r) /\
    1 <= r < length σ' /\
    contents σ' r = [1; 0; 0; 1]%Z /\
    extends [[1; 1]%Z] σ'.
Proof.
  apply (binary_mult_fresh_result [[1; 1]%Z] 0 0); simpl; lia.
Defined.

(** X18: [length_modifier(X, length)] changes the object [X] in place to
    exactly [2 * length] elements; it creates no object and changes no
    other one. *)
Theorem length_modifier_in_place (σ : store) (x : ref) (len : nat) :
  x < length σ ->
  exists σ',
    length_modifier x len σ = Ok σ' /\
    length σ' = length σ /\
    length (contents σ' x) = 2 * len /\
    Pure.length_modifier (contents σ x) len = Ok (contents σ' x) /\
    (forall z, z <> x -> contents σ' z = contents σ z).
Proof.
  intros Hx. rewrite length_modifier_store by done.
  destruct (Pure.length_modifier (contents σ x) len) as [r| |] eqn:E;
    try (rewrite length_modifier_spec in E; done).
  cbn [mbind outcome_bind]. eexists. split; [done|].
  rewrite length_update, contents_update_eq by done.
  split; [done|]. split; [by eapply length_modifier_length|].
  split; [done|]. intros z Hz. by rewrite contents_update_ne.
Qed.

Lemma length_modifier_in_place_witness :
  exists σ',
    length_modifier 0 1 [[1; 0; 1; 1]%Z; [1%Z]] = Ok σ' /\
    length σ' = 2 /\
    length (contents σ' 0) = 2 /\
    Pure.length_modifier [1; 0; 1; 1]%Z 1 = Ok (contents σ' 0) /\
    (forall z, z <> 0 -> contents σ' z = contents [[1; 0; 1; 1]%Z; [1%Z]] z).
Proof.
  apply (length_modifier_in_place [[1; 0; 1; 1]%Z; [1%Z]] 0 1). simpl; lia.
Defined.

(** X19: when [pad_same_length] is given one and the same object as both
    arguments, no equalising zero is prepended, and an odd length other
    than 1 gets two zeros rather than one, so that it stays odd. *)
Theorem pad_same_length_one_object (σ : store) (x : ref) :
  x < length σ ->
  pad_same_length x x σ =
    update x
      (if negb (length (contents σ x) mod 2 =? 0)
          && negb (length (contents σ x) =? 1)
       then 0%Z :: 0%Z :: contents σ x
       else contents σ x) σ.
Proof.
  intros Hx. unfold pad_same_length.
  rewrite Nat.ltb_irrefl, Nat.sub_diag. cbn [prepend_n_times].
  destruct (negb (length (contents σ x) mod 2 =? 0)
            && negb (length (contents σ x) =? 1)).
  - unfold insert0. by rewrite contents_update_eq, update_update.
  - by rewrite update_contents.
Qed.

Lemma pad_same_length_one_object_witness :
  pad_same_length 0 0 [[1; 0; 1]%Z] = [[0; 0; 1; 0; 1]%Z].
Proof.
  apply (pad_same_length_one_object [[1; 0; 1]%Z] 0). simpl; lia.
Defined.

(** X5: on two distinct list objects padding is idempotent:
    [pad_same_length(X, Y)] called again on the same two objects changes
    nothing. *)
Theorem pad_same_length_idempotent_distinct (σ : store) (x y : ref) :
  x <> y -> x < length σ -> y < length σ ->
  pad_same_length x y (pad_same_length x y σ) = pad_same_length x y σ.
Proof.
  intros Hxy Hx Hy.
  destruct (pad_same_length_step x y σ Hxy Hx Hy) as (Hl & HX & HY & _).
  rewrite (pad_same_length_store x y (pad_same_length x y σ))
    by (done || by rewrite Hl).
  rewrite HX, HY, pad_same_length_idempotent, <- HX, <- HY.
  by rewrite !update_contents.
Qed.

Lemma pad_same_length_idempotent_distinct_witness :
  pad_same_length 0 1 (pad_same_length 0 1 [[1; 1; 1]%Z; [1%Z]])
    = pad_same_length 0 1 [[1; 1; 1]%Z; [1%Z]].
Proof.
  apply (pad_same_length_idempotent_distinct [[1; 1; 1]%Z; [1%Z]] 0 1);
    simpl; lia.
Defined.

(** X7: on bit sequences held by two distinct list objects [binary_add]
    returns a bit sequence, and it has the extra leading bit exactly when
    the sum does not fit the padded length [L], that is when
    [X + Y >= 2 ^ L] for the values [X] and [Y] had before the call. *)
Theorem binary_add_extra_bit_distinct (σ : store) (x y : ref) :
  x <> y -> x < length σ -> y < length σ ->
  bit_seq (contents σ x) -> bit_seq (contents σ y) ->
  let L := pad_len (length (contents σ x)) (length (contents σ y)) in
  exists σ' r,
    binary_add x y σ = Ok (σ', r) /\
    bit_seq (contents σ' r) /\
    length (contents σ' r) =
      if (2 ^ Z.of_nat L
            <=? bits_to_int (contents σ x) + bits_to_int (contents σ y))%Z
      then S L
      else L.
Proof.
  intros Hxy Hx Hy HX HY L.
  destruct (binary_add_step x y σ Hxy Hx Hy) as (σ' & E & _ & Hc & _).
  exists σ', (length σ). split; [done|]. rewrite Hc.
  split; [by apply add_result_value|by apply add_result_carry].
Qed.

Lemma binary_add_extra_bit_distinct_witness :
  exists σ' r,
    binary_add 0 1 [[1; 1]%Z; [0; 1]%Z] = Ok (σ', r) /\
    bit_seq (contents σ' r) /\
    length (contents σ' r) = 3.
Proof.
  apply (binary_add_extra_bit_distinct [[1; 1]%Z; [0; 1]%Z] 0 1);
    [simpl; lia|simpl; lia|simpl; lia|solve_bit_seq..].
Defined.

End store_properties.
